(** * DuoTang word curation: the concreteness classifiers

    A shallow embedding of the decision logic of [filter_words.py] (the
    heuristic lexical classifier and the loop of [main] that splits the word
    list) and of [generate_nouns.py] (the WordNet based classifier and the
    word-validity filter), with the properties stated about them.

    Words are Python [str] values.  They are modelled as [string], one
    [ascii] per code point, read as the code points U+0000..U+00FF; on that
    range [str.lower] keeps the length and stays in the range, so the model
    is closed under every string operation the two scripts perform. *)

From Stdlib Require Import Bool Arith Lia List Ascii String Permutation.
From Stdlib Require Import ZArith Sorted DecimalString.
Import ListNotations.

Local Open Scope string_scope.
Local Open Scope list_scope.
Local Open Scope nat_scope.

(** ** Python [str] operations used by the scripts *)

Module PyStr.

(** [c.isupper()] for one character: the cased upper-case code points below
    U+0100 are A..Z, U+00C0..U+00D6 and U+00D8..U+00DE. *)
Definition char_isupper (c : ascii) : bool :=
  let n := nat_of_ascii c in
  ((65 <=? n) && (n <=? 90))
  || ((192 <=? n) && (n <=? 214))
  || ((216 <=? n) && (n <=? 222)).

(** [c.isalpha()] for one character: the letters below U+0100. *)
Definition char_isalpha (c : ascii) : bool :=
  let n := nat_of_ascii c in
  ((65 <=? n) && (n <=? 90))
  || ((97 <=? n) && (n <=? 122))
  || (n =? 170) || (n =? 181) || (n =? 186)
  || ((192 <=? n) && (n <=? 214))
  || ((216 <=? n) && (n <=? 246))
  || ((248 <=? n) && (n <=? 255)).

(** [c.lower()]: every upper-case code point below U+0100 has its lower-case
    partner 32 places further. *)
Definition char_lower (c : ascii) : ascii :=
  if char_isupper c then ascii_of_nat (nat_of_ascii c + 32) else c.

(** [s.lower()] *)
Fixpoint lower (s : string) : string :=
  match s with
  | EmptyString => EmptyString
  | String c s' => String (char_lower c) (lower s')
  end.

(** [s.isalpha()]: every character is a letter and there is at least one. *)
Fixpoint all_alpha (s : string) : bool :=
  match s with
  | EmptyString => true
  | String c s' => char_isalpha c && all_alpha s'
  end.

Definition isalpha (s : string) : bool :=
  match s with
  | EmptyString => false
  | String _ _ => all_alpha s
  end.

(** [s.endswith(suffix)] *)
Fixpoint endswith (s suffix : string) : bool :=
  String.eqb s suffix
  || match s with
     | EmptyString => false
     | String _ s' => endswith s' suffix
     end.

(** [sub in s] for two strings *)
Fixpoint contains (s sub : string) : bool :=
  String.prefix sub s
  || match s with
     | EmptyString => false
     | String _ s' => contains s' sub
     end.

(** [x in xs] for a set or a list of strings *)
Definition str_in (x : string) (xs : list string) : bool :=
  existsb (String.eqb x) xs.

(** Exceptions an operation of the scripts can raise. *)
Inductive exn : Type :=
| IndexError
| AttributeError
| TypeError.

Inductive result (A : Type) : Type :=
| Ok (a : A)
| Raise (e : exn).

Arguments Ok {A} a.
Arguments Raise {A} e.

Definition bind {A B : Type} (m : result A) (k : A -> result B) : result B :=
  match m with
  | Ok a => k a
  | Raise e => Raise e
  end.

(** [s[0]]: raises [IndexError] on the empty string. *)
Definition first_char (s : string) : result ascii :=
  match s with
  | EmptyString => Raise IndexError
  | String c _ => Ok c
  end.

End PyStr.

Import PyStr.

Notation "x <- m ;; k" := (bind m (fun x => k))
  (at level 61, m at next level, right associativity).

(** ** [filter_words.py] *)

Module FilterWords.

(** Profanity list (basic common offensive words) *)
Definition PROFANITY : list string :=
  [ "ass"; "arse"; "asshole"; "bastard"; "bitch"; "bollocks"; "crap"; "cunt";
    "damn"; "dick"; "fuck"; "fucking"; "piss"; "shit"; "slut"; "whore";
    "fisting"; "floozie"; "cock"; "coitus" ].

(** Abstract concepts - words ending in these suffixes are often abstract *)
Definition ABSTRACT_SUFFIXES : list string :=
  [ "tion"; "sion"; "ment"; "ness"; "ity"; "ty"; "ance"; "ence"; "ship";
    "hood"; "dom"; "ism"; "ization"; "isation"; "age"; "ery"; "ry"; "cy" ].

(** Words that indicate abstract concepts in themselves.  The set literal of
    the script, in its order and with the entries it repeats. *)
Definition ABSTRACT_WORDS : list string :=
  [ "ability"; "abnormality"; "abolishment"; "abortion"; "abrogation";
    "absence"; "abuse"; "acceptance"; "accomplishment"; "accord";
    "accordance"; "accountability"; "accuracy"; "accusation"; "achievement";
    "acknowledgment"; "activation"; "activity"; "adaptation"; "addiction";
    "adjustment"; "administration"; "admission"; "adoption"; "advance";
    "advancement"; "advantage"; "advent"; "advertising"; "advice"; "advocacy";
    "affair"; "affect"; "affinity"; "aftermath"; "agency"; "aggression";
    "agony"; "agreement"; "aid"; "aim"; "alarm"; "alert"; "allegation";
    "allocation"; "allowance"; "amazement"; "ambiguity"; "ambition";
    "amendment"; "amnesty"; "amusement"; "analgesia"; "anarchy"; "anger";
    "angina"; "anguish"; "animation"; "announcement"; "answer";
    "anticipation"; "anxiety"; "apology"; "appeal"; "appearance";
    "appellation"; "appetite"; "applause"; "application"; "appointment";
    "appreciation"; "apprehension"; "approach"; "appropriation"; "approval";
    "argument"; "arithmetic"; "arrangement"; "array"; "arrest"; "arrival";
    "arrogance"; "art"; "ascend"; "ascent"; "aside"; "aspect"; "aspiration";
    "assassination"; "assault"; "assembly"; "assertion"; "assessment";
    "assignment"; "assistance"; "association"; "assumption"; "assurance";
    "asymmetry"; "attempt"; "attendance"; "attention"; "attenuation";
    "attitude"; "attraction"; "attribute"; "authentication"; "authenticity";
    "authorisation"; "authority"; "authorization"; "autoimmunity";
    "automation"; "availability"; "avalanche"; "average"; "aversion"; "award";
    "awareness"; "awe"; "backburn"; "backdrop"; "background"; "backup";
    "bafflement"; "bail"; "balance"; "ban"; "bandwidth"; "banking";
    "bankruptcy"; "bargain"; "barrage"; "barrier"; "baseline"; "basics";
    "basis"; "batting"; "battle"; "beat"; "beating"; "beauty"; "beginning";
    "behalf"; "behavior"; "behaviour"; "beheading"; "behest"; "behold";
    "being"; "belief"; "belligerency"; "benefit"; "best-seller"; "bestseller";
    "bet"; "betray"; "betrayal"; "betting"; "beverage"; "beyond"; "bias";
    "bibliography"; "bid"; "bidding"; "billing"; "billion"; "biography";
    "biology"; "biopsy"; "birth"; "birthday"; "bit"; "bite"; "bitter";
    "bitterness"; "blackness"; "blame"; "blank"; "blast"; "bleeding"; "blend";
    "blessing"; "blight"; "blindness"; "bliss"; "blow"; "blue"; "blunder";
    "blur"; "blush"; "boast"; "boasting"; "body"; "boil"; "bombing"; "bond";
    "bonding"; "bonus"; "booking"; "boolean"; "boom"; "boon"; "boost";
    "border"; "bore"; "boredom"; "borrowing"; "bother"; "bottom";
    "bottom-line"; "bout"; "boundary"; "bout"; "boycott"; "boyhood";
    "bracket"; "brag"; "bragging"; "brain"; "brand"; "bravery"; "breach";
    "break"; "breakdown"; "breakfast"; "breakpoint"; "breakthrough"; "breath";
    "breathing"; "breed"; "breeding"; "breeze"; "bribery"; "brief";
    "briefing"; "briefly"; "brightness"; "brilliance"; "brilliant"; "brink";
    "broadcast"; "brotherhood"; "browsing"; "brunch"; "brushing"; "brutality";
    "bubble"; "budget"; "build"; "building"; "bulk"; "bulletin"; "bullying";
    "bump"; "bunch"; "bundle"; "burden"; "burial"; "burn"; "burn-out";
    "burning"; "burst"; "business"; "bust"; "bustle"; "buy"; "buyer";
    "buying"; "buzz"; "adulthood"; "afternoon"; "afterlife"; "aftershock";
    "afterthought"; "age"; "boyhood"; "century"; "childhood"; "dawn"; "day";
    "daylight"; "deadline"; "decade"; "delay"; "duration"; "dusk"; "era";
    "eternity"; "eve"; "evening"; "event"; "forever"; "fortnight"; "future";
    "girlhood"; "hour"; "interval"; "lifespan"; "lifetime"; "manhood";
    "midnight"; "millennium"; "minute"; "moment"; "month"; "morning"; "night";
    "nightfall"; "nighttime"; "noon"; "past"; "period"; "present"; "season";
    "second"; "semester"; "shift"; "spell"; "springtime"; "summertime";
    "sunrise"; "sunset"; "teatime"; "term"; "time"; "timeframe"; "timeline";
    "tomorrow"; "tonight"; "twilight"; "week"; "weekend"; "while";
    "wintertime"; "year"; "yesterday"; "youth"; "act"; "action"; "activation";
    "activity"; "adaptation"; "addition"; "adjustment"; "adoption"; "advance";
    "advancement"; "advertising"; "advocacy"; "allocation"; "alteration";
    "amendment"; "analysis"; "animation"; "announcement"; "application";
    "approach"; "appropriation"; "arrangement"; "arrest"; "arrival"; "ascent";
    "assassination"; "assault"; "assembly"; "assessment"; "assignment";
    "assist"; "assistance"; "association"; "attack"; "attainment"; "attempt";
    "attendance"; "attenuation"; "authentication"; "authorization";
    "automation"; "backup"; "banking"; "bargain"; "barrage"; "battle"; "beat";
    "beating"; "beginning"; "behavior"; "behaviour"; "beheading"; "betrayal";
    "betting"; "bid"; "bidding"; "billing"; "birth"; "bite"; "blackmail";
    "blast"; "bleeding"; "blend"; "blessing"; "blight"; "blink"; "blow";
    "boast"; "boasting"; "boil"; "bombing"; "bonding"; "booking"; "boom";
    "boost"; "bore"; "borrowing"; "bounce"; "bout"; "boycott"; "bragging";
    "branding"; "breach"; "break"; "breakdown"; "breakthrough"; "breath";
    "breathing"; "breed"; "breeding"; "bribery"; "broadcast"; "browsing";
    "brushing"; "build"; "building"; "bullying"; "bump"; "burn"; "burning";
    "burst"; "business"; "buy"; "buying"; "buzz"; "academics"; "accompanist";
    "accountant"; "achiever"; "activist"; "actor"; "actress"; "admin";
    "administrator"; "adult"; "adviser"; "advocate"; "agent"; "aide";
    "airman"; "alien"; "allergist"; "ally"; "ambassador"; "analyst";
    "anarchist"; "ancestor"; "angel"; "anesthesiologist"; "announcer";
    "antagonist"; "anthropologist"; "anybody"; "anyone"; "applicant";
    "archaeologist"; "archer"; "architect"; "aristocrat"; "artist";
    "assistant"; "associate"; "astronaut"; "astronomer"; "atheist"; "athlete";
    "attendant"; "attorney"; "audience"; "aunt"; "author"; "baby"; "babe";
    "bachelor"; "badger"; "baker"; "ballerina"; "balloonist"; "bandleader";
    "bandit"; "banker"; "barber"; "bard"; "baritone"; "bartender"; "bather";
    "batman"; "beggar"; "beginner"; "believer"; "beneficiary"; "bidder";
    "billionaire"; "biographer"; "biologist"; "blacksmith"; "blogger";
    "bloke"; "boarder"; "boatman"; "bodyguard"; "bondsman"; "bookkeeper";
    "boss"; "bouncer"; "boy"; "boyfriend"; "bride"; "bridesmaid"; "brigadier";
    "broadcaster"; "broker"; "brother"; "brother-in-law"; "buddy"; "builder";
    "burglar"; "businessman"; "businesswoman"; "butcher"; "butler"; "buyer";
    "bystander"; "brotherhood"; "citizenship"; "comradeship"; "companionship";
    "courtship"; "fellowship"; "fatherhood"; "friendship"; "kinship";
    "leadership"; "membership"; "motherhood"; "ownership"; "parenthood";
    "partnership"; "relationship"; "sisterhood"; "sportsmanship";
    "stewardship"; "apprenticeship"; "dictatorship"; "guardianship";
    "hardship"; "internship"; "kingship"; "kinship"; "lordship";
    "partnership"; "readership"; "scholarship"; "sponsorship"; "trusteeship";
    "workmanship" ].

(** Additional keywords that often indicate abstract concepts *)
Definition ABSTRACT_KEYWORDS : list string :=
  [ "abundance"; "amount"; "capacity"; "degree"; "depth"; "dimension";
    "distance"; "extent"; "height"; "length"; "level"; "magnitude"; "measure";
    "portion"; "quantity"; "ratio"; "scale"; "scope"; "size"; "total";
    "volume"; "weight"; "width"; "condition"; "situation"; "state"; "status";
    "circumstance"; "position"; "concept"; "idea"; "notion"; "theory";
    "thought"; "principle"; "hypothesis"; "philosophy"; "ideology"; "quality";
    "characteristic"; "feature"; "trait"; "attribute"; "property"; "process";
    "procedure"; "method"; "system"; "technique"; "approach"; "strategy";
    "law"; "legislation"; "regulation"; "rule"; "policy"; "protocol";
    "statute"; "analysis"; "research"; "study"; "investigation";
    "examination"; "evaluation"; "assessment" ].

(** The list literal inside [is_abstract_noun]: "some exceptions that are
    concrete despite suffix". *)
Definition suffix_exceptions : list string :=
  [ "station"; "nation"; "ration"; "portion"; "motion"; "lotion"; "potion";
    "cushion"; "fashion"; "mansion"; "passion"; "session"; "mission";
    "television"; "prison"; "poison"; "bison"; "melon"; "lemon"; "demon";
    "summon"; "common"; "salmon"; "cotton"; "button"; "mutton"; "mitten";
    "kitten"; "garden"; "warden"; "burden"; "golden"; "wooden"; "sudden" ].

(** The [for suffix in ABSTRACT_SUFFIXES] loop of [is_abstract_noun]: [true]
    is its [return True]; [false] is the loop running to its end. *)
Fixpoint suffix_loop (word_lower : string) (suffixes : list string) : bool :=
  match suffixes with
  | [] => false
  | suffix :: rest =>
      if endswith word_lower suffix then
        if str_in word_lower suffix_exceptions then suffix_loop word_lower rest
        else true
      else suffix_loop word_lower rest
  end.

Definition is_abstract_noun (word : string) : bool :=
  let word_lower := lower word in
  if str_in word_lower ABSTRACT_WORDS then true
  else if str_in word_lower ABSTRACT_KEYWORDS then true
  else if 7 <? String.length word then
    if suffix_loop word_lower ABSTRACT_SUFFIXES then true else false
  else false.

Definition is_profane (word : string) : bool :=
  str_in (lower word) PROFANITY.

Definition should_filter (word : string) : bool :=
  if is_profane word then true
  else if is_abstract_noun word then true
  else false.

(** The loop of [main]: both result lists grow by [append]. *)
Fixpoint main_loop (words filtered_words removed_words : list string)
  : list string * list string :=
  match words with
  | [] => (filtered_words, removed_words)
  | word :: rest =>
      if should_filter word
      then main_loop rest filtered_words (removed_words ++ [word])
      else main_loop rest (filtered_words ++ [word]) removed_words
  end.

Definition main (words : list string) : list string * list string :=
  main_loop words [] [].

(** The verdict of the heuristic classifier in the specification's words:
    checks 1 to 4 in the stated order, the first match wins.  It is written
    from the text, to be compared with the three functions above. *)
Inductive Verdict : Type :=
| Profane
| Abstract
| Keep.

Definition spec_verdict (word : string) : Verdict :=
  let w := lower word in
  if str_in w PROFANITY then Profane
  else if str_in w ABSTRACT_WORDS then Abstract
  else if str_in w ABSTRACT_KEYWORDS then Abstract
  else if (7 <? String.length word)
          && existsb (endswith w) ABSTRACT_SUFFIXES
          && negb (str_in w suffix_exceptions)
       then Abstract
  else Keep.

(** Taking the entries of a list at the positions a mask marks. *)
Fixpoint select {A : Type} (mask : list bool) (l : list A) : list A :=
  match mask, l with
  | m :: mask', x :: l' => if m then x :: select mask' l' else select mask' l'
  | _, _ => []
  end.

(** [Subseq k l]: [k] is [l] with some entries left out, the others in the
    order they have in [l]. *)
Inductive Subseq {A : Type} : list A -> list A -> Prop :=
| Subseq_nil : Subseq [] []
| Subseq_skip x k l : Subseq k l -> Subseq k (x :: l)
| Subseq_keep x k l : Subseq k l -> Subseq (x :: k) (x :: l).

End FilterWords.

(** ** [generate_nouns.py] *)

Module GenerateNouns.

(** What the scripts read of a WordNet synset: [name()], [definition()], the
    names of the synsets along each path of [hypernym_paths()], and the names
    of [instance_hypernyms()]. *)
Record Synset : Type := {
  name : string;
  definition : string;
  hypernym_paths : list (list string);
  instance_hypernyms : list string
}.

(** Abstract concept indicators (we want to exclude these) *)
Definition abstract_roots : list string :=
  [ "abstraction.n.06"; "psychological_feature.n.01"; "attribute.n.02";
    "state.n.04"; "event.n.01"; "act.n.02"; "group.n.01"; "measure.n.02";
    "time_period.n.01"; "relation.n.01"; "communication.n.02"; "content.n.05";
    "possession.n.02"; "social_group.n.01"; "body_part.n.01";
    "internal_organ.n.01"; "person.n.01"; "human.n.01"; "worker.n.01";
    "adult.n.01"; "juvenile.n.01"; "national.n.01"; "native.n.03";
    "resident.n.01"; "inhabitant.n.01"; "professional.n.01";
    "skilled_worker.n.01"; "organization.n.01"; "establishment.n.01" ].

(** Physical object indicators (we want these) *)
Definition concrete_roots : list string :=
  [ "physical_entity.n.01"; "object.n.01"; "artifact.n.01";
    "natural_object.n.01"; "living_thing.n.01"; "organism.n.01"; "whole.n.02" ].

Definition abstract_keywords : list string :=
  [ "concept of"; "idea of"; "theory of"; "principle of"; "state of being";
    "feeling of"; "emotion of"; "the act of"; "the action of";
    "the process of"; "the activity of"; "the event of" ].

(** Filter technical/scientific/medical terms *)
Definition technical_keywords : list string :=
  [ "drug used"; "medicine"; "pharmaceutical"; "medication";
    "chemical compound"; "enzyme"; "hormone"; "protein"; "antibiotic";
    "trademark"; "trade name"; "brand name"; "physics"; "chemistry"; "particle";
    "subatomic"; "molecular"; "atom"; "ion"; "transmits"; "duplicator";
    "device for"; "apparatus"; "instrument for measuring"; "amphetamine";
    "anesthetic"; "crystalline"; "sedative"; "stimulant"; "analgesic";
    "ester"; "alkaloid"; "steroid"; "vitamin"; "fossil"; "extinct" ].

(** Words ending in common formal suffixes *)
Definition formal_suffixes : list string :=
  [ "tion"; "sion"; "ism"; "ity"; "ness"; "ment"; "ence"; "ance" ].

(** [a & b] is not empty, for a set of names [a] held as a list *)
Definition intersects (a b : list string) : bool :=
  existsb (fun h => str_in h b) a.

(** Truth value of a Python list *)
Definition nonempty {A : Type} (l : list A) : bool :=
  match l with
  | [] => false
  | _ :: _ => true
  end.

(** The body of the [for synset in synsets] loop of [is_concrete_noun]:
    [false] is one of its [continue] statements, [true] its [return True]. *)
Definition sense_returns_true (word : string) (synset : Synset) : bool :=
  let hypernyms := List.concat (hypernym_paths synset) in
  if negb (intersects hypernyms concrete_roots) then false
  else if intersects hypernyms abstract_roots then false
  else
    let definition := lower (definition synset) in
    if existsb (fun keyword => contains definition keyword) abstract_keywords
    then false
    else if existsb (fun keyword => contains definition keyword)
                    technical_keywords
    then false
    else if (8 <? String.length word)
            && existsb (fun suffix => endswith word suffix) formal_suffixes
    then
      if contains definition "reproduction"
         || contains definition "duplication"
         || contains definition "replication"
      then false
      else true
    else true.

(** The [for synset in synsets] loop.  [Some n]: the loop reaches its
    [return True] at the sense in place [n], having passed over the [n] senses
    before it with [continue]; [None]: the loop runs to its end. *)
Fixpoint synset_loop (word : string) (synsets : list Synset) : option nat :=
  match synsets with
  | [] => None
  | synset :: rest =>
      if sense_returns_true word synset then Some 0
      else match synset_loop word rest with
           | Some n => Some (S n)
           | None => None
           end
  end.

Section WordNet.

(** [wn.synsets(word, pos=wn.NOUN)], empty for a word WordNet does not
    have. *)
Variable wn_synsets : string -> list Synset.

Definition is_concrete_noun (word : string) : bool :=
  let synsets := wn_synsets word in
  if negb (nonempty synsets) then false
  else match synset_loop word synsets with
       | Some _ => true
       | None => false
       end.

Definition is_valid_word (word : string) : result bool :=
  if negb (isalpha word) then Ok false
  else
    c <- first_char word ;;
    if char_isupper c then Ok false
    else
      let synsets := wn_synsets word in
      if nonempty synsets then
        let all_proper :=
          forallb (fun synset => nonempty (instance_hypernyms synset)) synsets in
        if all_proper then Ok false else Ok true
      else Ok true.

End WordNet.

(** A sense qualifies, in the specification's words (steps a to d of the
    taxonomy-based classifier): its ancestor categories meet the concrete
    roots and miss the abstract roots, its definition has no abstract-sense
    marker and no technical marker, and the rule on long words with a formal
    suffix and a definition about reproduction, duplication or replication
    does not exclude it. *)
Definition spec_sense_qualifies (word : string) (sense : Synset) : Prop :=
  let ancestors := List.concat (hypernym_paths sense) in
  let text := lower (definition sense) in
  (exists h, In h ancestors /\ In h concrete_roots)
  /\ ~ (exists h, In h ancestors /\ In h abstract_roots)
  /\ (forall marker, In marker abstract_keywords ->
        contains text marker = false)
  /\ (forall marker, In marker technical_keywords ->
        contains text marker = false)
  /\ ~ (8 < String.length word
        /\ (exists suffix, In suffix formal_suffixes
                           /\ endswith word suffix = true)
        /\ (contains text "reproduction" = true
            \/ contains text "duplication" = true
            \/ contains text "replication" = true)).

(** A named-instance sense: [instance_hypernyms()] is not empty. *)
Definition named_instance (sense : Synset) : Prop :=
  instance_hypernyms sense <> [].

(** A syntactically valid lower-case alphabetic token. *)
Fixpoint no_upper (s : string) : bool :=
  match s with
  | EmptyString => true
  | String c s' => negb (char_isupper c) && no_upper s'
  end.

Definition lowercase_token (s : string) : bool :=
  isalpha s && no_upper s.

End GenerateNouns.

(** ** A small taxonomy to run the classifiers on *)

Module Fixture.

Import GenerateNouns.

Definition chair_seat : Synset := {|
  name := "chair.n.01";
  definition := "a seat for one person, with a support for the back";
  hypernym_paths :=
    [ [ "entity.n.01"; "physical_entity.n.01"; "object.n.01"; "whole.n.02";
        "artifact.n.01"; "instrumentality.n.03"; "furnishing.n.02";
        "furniture.n.01"; "seat.n.03"; "chair.n.01" ] ];
  instance_hypernyms := []
|}.

Definition chair_professorship : Synset := {|
  name := "professorship.n.01";
  definition := "the position of professor";
  hypernym_paths :=
    [ [ "entity.n.01"; "abstraction.n.06"; "psychological_feature.n.01";
        "event.n.01"; "act.n.02"; "activity.n.01"; "occupation.n.01";
        "position.n.06"; "professorship.n.01" ] ];
  instance_hypernyms := []
|}.

Definition london_city : Synset := {|
  name := "london.n.01";
  definition := "the capital and largest city of England";
  hypernym_paths :=
    [ [ "entity.n.01"; "physical_entity.n.01"; "object.n.01";
        "location.n.01"; "region.n.03"; "district.n.01";
        "administrative_district.n.01"; "municipality.n.01"; "city.n.01";
        "national_capital.n.01"; "london.n.01" ] ];
  instance_hypernyms := [ "national_capital.n.01" ]
|}.

Definition london_writer : Synset := {|
  name := "london.n.02";
  definition := "United States writer of novels based on experiences in the Klondike gold rush";
  hypernym_paths :=
    [ [ "entity.n.01"; "physical_entity.n.01"; "causal_agent.n.01";
        "person.n.01"; "communicator.n.01"; "writer.n.01"; "london.n.02" ] ];
  instance_hypernyms := [ "writer.n.01" ]
|}.

(** The abstract sense of "chair" comes first, the seat second. *)
Definition wn_synsets (word : string) : list Synset :=
  if String.eqb (lower word) "chair" then [ chair_professorship; chair_seat ]
  else if String.eqb (lower word) "london" then [ london_city; london_writer ]
  else [].

(** A taxonomy with the same senses for "chair" and other senses for every
    other word. *)
Definition wn_other (word : string) : list Synset :=
  if String.eqb word "chair" then [ chair_professorship; chair_seat ]
  else [ london_city ].

(** A taxonomy that knows no word. *)
Definition wn_empty (word : string) : list Synset := [].

End Fixture.

Import FilterWords GenerateNouns.

(** ** The classifiers as Python runs them

    The five functions again, this time with what the definitions above leave
    to their types: [word] is any value a caller passes, every operation on it
    raises where Python raises, and a call runs in a state of the process
    that it can read and could change.  The state holds the global names the
    functions look up when they run, the taxonomy, and everything else. *)

Module PyRun.

(** The values a caller can pass for [word] *)
Inductive pyobj : Type :=
| PyStr (s : string)
| PyInt (n : Z)
| PyNone.

Record World : Type := {
  w_PROFANITY : list string;
  w_ABSTRACT_SUFFIXES : list string;
  w_ABSTRACT_WORDS : list string;
  w_ABSTRACT_KEYWORDS : list string;
  (** [wn.synsets(word, pos=wn.NOUN)], or the exception it raises *)
  w_wordnet : pyobj -> result (list Synset);
  (** everything else: other names, counters, the random generator *)
  w_rest : list Z
}.

(** A computation: from a state, a value or an exception, and a state *)
Definition Py (A : Type) : Type := World -> result A * World.

Definition ret {A : Type} (a : A) : Py A := fun w => (Ok a, w).

Definition lift {A : Type} (r : result A) : Py A := fun w => (r, w).

Definition read {A : Type} (f : World -> A) : Py A := fun w => (Ok (f w), w).

Definition bind_py {A B : Type} (m : Py A) (k : A -> Py B) : Py B :=
  fun w =>
    match m w with
    | (Ok a, w') => k a w'
    | (Raise e, w') => (Raise e, w')
    end.

(** [word.lower()] *)
Definition py_lower (word : pyobj) : result string :=
  match word with
  | PyStr s => Ok (lower s)
  | _ => Raise AttributeError
  end.

(** [word.isalpha()] *)
Definition py_isalpha (word : pyobj) : result bool :=
  match word with
  | PyStr s => Ok (isalpha s)
  | _ => Raise AttributeError
  end.

(** [word.endswith(suffix)] *)
Definition py_endswith (word : pyobj) (suffix : string) : result bool :=
  match word with
  | PyStr s => Ok (endswith s suffix)
  | _ => Raise AttributeError
  end.

(** [len(word)] *)
Definition py_len (word : pyobj) : result nat :=
  match word with
  | PyStr s => Ok (String.length s)
  | _ => Raise TypeError
  end.

(** [word[0]], a string of one character *)
Definition py_getitem0 (word : pyobj) : result ascii :=
  match word with
  | PyStr s => first_char s
  | _ => Raise TypeError
  end.

End PyRun.

Import PyRun.

Notation "x <~ m ;; k" := (bind_py m (fun x => k))
  (at level 61, m at next level, right associativity).

Module PyRunCode.

(** [filter_words.py] *)

Definition is_profane_py (word : pyobj) : Py bool :=
  word_lower <~ lift (py_lower word) ;;
  profanity <~ read w_PROFANITY ;;
  ret (str_in word_lower profanity).

Definition is_abstract_noun_py (word : pyobj) : Py bool :=
  word_lower <~ lift (py_lower word) ;;
  abstract_words <~ read w_ABSTRACT_WORDS ;;
  if str_in word_lower abstract_words then ret true
  else
    abstract_keywords <~ read w_ABSTRACT_KEYWORDS ;;
    if str_in word_lower abstract_keywords then ret true
    else
      n <~ lift (py_len word) ;;
      if 7 <? n then
        abstract_suffixes <~ read w_ABSTRACT_SUFFIXES ;;
        if suffix_loop word_lower abstract_suffixes then ret true
        else ret false
      else ret false.

Definition should_filter_py (word : pyobj) : Py bool :=
  profane <~ is_profane_py word ;;
  if profane then ret true
  else
    abstract <~ is_abstract_noun_py word ;;
    if abstract then ret true else ret false.

(** [generate_nouns.py] *)

(** [any(word.endswith(suffix) for suffix in formal_suffixes)] *)
Fixpoint any_endswith_py (word : pyobj) (suffixes : list string)
  : result bool :=
  match suffixes with
  | [] => Ok false
  | suffix :: rest =>
      b <- py_endswith word suffix ;;
      if b then Ok true else any_endswith_py word rest
  end.

(** The body of the loop of [is_concrete_noun] *)
Definition sense_returns_true_py (word : pyobj) (synset : Synset)
  : result bool :=
  let hypernyms := List.concat (hypernym_paths synset) in
  if negb (intersects hypernyms concrete_roots) then Ok false
  else if intersects hypernyms abstract_roots then Ok false
  else
    let definition := lower (definition synset) in
    if existsb (fun keyword => contains definition keyword) abstract_keywords
    then Ok false
    else if existsb (fun keyword => contains definition keyword)
                    technical_keywords
    then Ok false
    else
      n <- py_len word ;;
      formal <- (if 8 <? n then any_endswith_py word formal_suffixes
                 else Ok false) ;;
      if formal then
        if contains definition "reproduction"
           || contains definition "duplication"
           || contains definition "replication"
        then Ok false
        else Ok true
      else Ok true.

Fixpoint synset_loop_py (word : pyobj) (synsets : list Synset)
  : result (option nat) :=
  match synsets with
  | [] => Ok None
  | synset :: rest =>
      b <- sense_returns_true_py word synset ;;
      if b then Ok (Some 0)
      else
        r <- synset_loop_py word rest ;;
        Ok (match r with
            | Some n => Some (S n)
            | None => None
            end)
  end.

Definition is_concrete_noun_py (word : pyobj) : Py bool :=
  synsets <~ (fun w => (w_wordnet w word, w)) ;;
  if negb (nonempty synsets) then ret false
  else
    r <~ lift (synset_loop_py word synsets) ;;
    match r with
    | Some _ => ret true
    | None => ret false
    end.

Definition is_valid_word_py (word : pyobj) : Py bool :=
  alpha <~ lift (py_isalpha word) ;;
  if negb alpha then ret false
  else
    c <~ lift (py_getitem0 word) ;;
    if char_isupper c then ret false
    else
      synsets <~ (fun w => (w_wordnet w word, w)) ;;
      if nonempty synsets then
        let all_proper :=
          forallb (fun synset => nonempty (instance_hypernyms synset)) synsets in
        if all_proper then ret false else ret true
      else ret true.

(** Calling a classifier twice, one call after the other *)
Definition twice {A : Type} (f : pyobj -> Py A) (word : pyobj) : Py (A * A) :=
  v1 <~ f word ;;
  v2 <~ f word ;;
  ret (v1, v2).

(** The state as the module [filter_words] sets it up, with a taxonomy that
    answers [wn] on strings. *)
Definition module_globals (world : World) : Prop :=
  w_PROFANITY world = PROFANITY
  /\ w_ABSTRACT_SUFFIXES world = ABSTRACT_SUFFIXES
  /\ w_ABSTRACT_WORDS world = ABSTRACT_WORDS
  /\ w_ABSTRACT_KEYWORDS world = ABSTRACT_KEYWORDS.

Definition taxonomy_of (world : World) (wn : string -> list Synset) : Prop :=
  forall s, w_wordnet world (PyStr s) = Ok (wn s).

(** Two states with the same curated sets and the same answer of the taxonomy
    for [word]; the rest of the two states is free. *)
Definition same_snapshot (w1 w2 : World) (word : pyobj) : Prop :=
  w_PROFANITY w1 = w_PROFANITY w2
  /\ w_ABSTRACT_SUFFIXES w1 = w_ABSTRACT_SUFFIXES w2
  /\ w_ABSTRACT_WORDS w1 = w_ABSTRACT_WORDS w2
  /\ w_ABSTRACT_KEYWORDS w1 = w_ABSTRACT_KEYWORDS w2
  /\ w_wordnet w1 word = w_wordnet w2 word.

End PyRunCode.

Import PyRunCode.

(** ** More of the Python library: [str.replace], [set], [sorted] *)

Module PyLib.

(** [s.replace(old, new)] for two one-character strings *)
Fixpoint replace_char (old new : ascii) (s : string) : string :=
  match s with
  | EmptyString => EmptyString
  | String c s' =>
      String (if Ascii.eqb c old then new else c) (replace_char old new s')
  end.

(** A [set] of strings is held as a list without repetitions; [s.add(x)]. *)
Definition set_add (x : string) (s : list string) : list string :=
  if str_in x s then s else s ++ [x].

(** [sorted(xs)] for strings.  [str] compares code point by code point, a
    proper prefix first, which is [String.leb]; equal strings cannot be told
    apart, so the order is all that [sorted] decides. *)
Fixpoint insert_sorted (x : string) (l : list string) : list string :=
  match l with
  | [] => [x]
  | y :: l' => if String.leb x y then x :: l else y :: insert_sorted x l'
  end.

Fixpoint sorted (l : list string) : list string :=
  match l with
  | [] => []
  | x :: l' => insert_sorted x (sorted l')
  end.

(** [s < t] for two strings *)
Definition str_lt (s t : string) : Prop := String.ltb s t = true.

End PyLib.

Import PyLib.

(** ** [get_concrete_nouns] of [generate_nouns.py] *)

Module NounList.

Section Corpus.

(** [wn.synsets(word, pos=wn.NOUN)] *)
Variable wn_synsets : string -> list Synset.

(** [wn.all_synsets(pos=wn.NOUN)]: for each synset, [lemma.name()] of its
    [lemmas()], in order. *)
Variable all_synsets : list (list string).

(** The body of the inner loop: what one lemma does to [all_nouns]. *)
Definition add_lemma (min_length max_length : Z) (all_nouns : list string)
           (lemma_name : string) : result (list string) :=
  let word := replace_char "_" " " lemma_name in
  if negb (contains word " ") && negb (contains word "-") then
    let word := lower word in
    if (min_length <=? Z.of_nat (String.length word))%Z
       && (Z.of_nat (String.length word) <=? max_length)%Z
    then
      valid <- is_valid_word wn_synsets word ;;
      if valid then Ok (set_add word all_nouns) else Ok all_nouns
    else Ok all_nouns
  else Ok all_nouns.

Fixpoint lemmas_loop (min_length max_length : Z) (all_nouns : list string)
         (lemmas : list string) : result (list string) :=
  match lemmas with
  | [] => Ok all_nouns
  | lemma_name :: rest =>
      all_nouns' <- add_lemma min_length max_length all_nouns lemma_name ;;
      lemmas_loop min_length max_length all_nouns' rest
  end.

Fixpoint all_synsets_loop (min_length max_length : Z)
         (all_nouns : list string) (synsets : list (list string))
  : result (list string) :=
  match synsets with
  | [] => Ok all_nouns
  | lemmas :: rest =>
      all_nouns' <- lemmas_loop min_length max_length all_nouns lemmas ;;
      all_synsets_loop min_length max_length all_nouns' rest
  end.

(** The second loop, over [sorted(all_nouns)] *)
Fixpoint concrete_loop (words concrete_nouns : list string) : list string :=
  match words with
  | [] => concrete_nouns
  | word :: rest =>
      if is_concrete_noun wn_synsets word
      then concrete_loop rest (set_add word concrete_nouns)
      else concrete_loop rest concrete_nouns
  end.

Definition get_concrete_nouns (min_length max_length : Z)
  : result (list string) :=
  all_nouns <- all_synsets_loop min_length max_length [] all_synsets ;;
  Ok (sorted (concrete_loop (sorted all_nouns) [])).

End Corpus.

End NounList.

Import NounList.

(** ** [json.dumps] and [str] of a length *)

Module PyJson.

Definition quote : ascii := "034".
Definition backslash : ascii := "092".

(** The newline character, as a string *)
Definition nl : string := String "010" "".

Definition hex_digit (n : nat) : ascii :=
  match String.get n "0123456789abcdef" with
  | Some c => c
  | None => "0"
  end.

(** How [json.dumps] writes one character of a string (with the default
    [ensure_ascii]): a backslash escape for the quote, the backslash and the
    five named control characters, the character itself from the space to the
    tilde, and a [\u00xx] escape for every other code point below U+0100. *)
Definition json_escape_char (c : ascii) : string :=
  let n := nat_of_ascii c in
  if n =? 34 then String backslash (String quote "")
  else if n =? 92 then String backslash (String backslash "")
  else if n =? 10 then String backslash "n"
  else if n =? 13 then String backslash "r"
  else if n =? 9 then String backslash "t"
  else if n =? 12 then String backslash "f"
  else if n =? 8 then String backslash "b"
  else if (32 <=? n) && (n <=? 126) then String c ""
  else String backslash
         (String "u" (String "0" (String "0"
            (String (hex_digit (n / 16)) (String (hex_digit (n mod 16)) ""))))).

Fixpoint json_escape (s : string) : string :=
  match s with
  | EmptyString => EmptyString
  | String c s' => (json_escape_char c ++ json_escape s')%string
  end.

(** [json.dumps(s)] for a string *)
Definition json_string (s : string) : string :=
  String quote (json_escape s ++ String quote "")%string.

(** [json.dumps(xs, indent=2)] for a list of strings *)
Definition json_dumps (xs : list string) : string :=
  match xs with
  | [] => "[]"
  | _ :: _ =>
      ("[" ++ nl ++ "  "
       ++ String.concat ("," ++ nl ++ "  ") (map json_string xs)
       ++ nl ++ "]")%string
  end.

(** [str(n)] for a length *)
Definition str_of_nat (n : nat) : string :=
  NilEmpty.string_of_uint (Nat.to_uint n).

End PyJson.

Import PyJson.

(** ** The files the two scripts write and read *)

(** [main] of [generate_nouns.py]: the text of [words.js] *)
Module GenerateNounsMain.

Definition js_content (nouns : list string) : string :=
  ("const WORD_LIST = " ++ json_dumps nouns ++ ";" ++ nl
   ++ "const WORD_SET = new Set(WORD_LIST);" ++ nl)%string.

(** [main]: the noun list for lengths 2 to 10, then the texts of [words.js]
    and of [nouns_list.txt]. *)
Definition main (wn_synsets : string -> list Synset)
           (all_synsets : list (list string))
  : result (list string * string * string) :=
  nouns <- get_concrete_nouns wn_synsets all_synsets 2 10 ;;
  Ok (nouns, js_content nouns, String.concat nl nouns).

End GenerateNounsMain.

(** [load_words_from_js] and the text of [words_new.js] in
    [filter_words.py] *)
Module FilterWordsFiles.

Fixpoint drop (n : nat) (s : string) : string :=
  match n, s with
  | S n', String _ s' => drop n' s'
  | _, _ => s
  end.

(** The text after the first place where [marker] stands in [s] *)
Fixpoint after_first (marker s : string) : option string :=
  if String.prefix marker s then Some (drop (String.length marker) s)
  else match s with
       | EmptyString => None
       | String _ s' => after_first marker s'
       end.

(** The shortest start of [s] that [closing] follows: what a lazy [.*?]
    takes, any character allowed, when [closing] comes next in the pattern *)
Fixpoint lazy_until (closing s : string) : option string :=
  if String.prefix closing s then Some EmptyString
  else match s with
       | EmptyString => None
       | String c s' =>
           match lazy_until closing s' with
           | Some t => Some (String c t)
           | None => None
           end
       end.

(** [re.search(r'const WORD_LIST = (\[.*?\]);', content, re.DOTALL)] and
    [match.group(1)].  The search takes the leftmost place where the pattern
    matches.  The pattern can only match where the text
    [const WORD_LIST = [] stands, and it matches there when a bracket followed
    by a semicolon comes later; a later place has no closing the first place
    lacks, so the first place alone decides.  The lazy [.*?] then stops at the
    first such closing. *)
Definition re_search_word_list (content : string) : option string :=
  match after_first "const WORD_LIST = [" content with
  | None => None
  | Some rest =>
      match lazy_until "];" rest with
      | None => None
      | Some inner => Some ("[" ++ inner ++ "]")%string
      end
  end.

Section Load.

(** [json.loads]: what it gives for a text, a value or the exception it
    raises, and the empty list. *)
Variable Json : Type.
Variable json_loads : string -> Json.
Variable empty_list : Json.

(** [load_words_from_js], on the text of the file *)
Definition load_words_from_js (content : string) : Json :=
  match re_search_word_list content with
  | Some words_json => json_loads words_json
  | None => empty_list
  end.

End Load.

(** Reading [s] from the left, [after_bracket] telling whether the character
    before it is a closing bracket: whether a closing bracket directly
    followed by a semicolon is met, and whether the last character read is a
    closing bracket. *)
Fixpoint scan_close (after_bracket : bool) (s : string) : bool * bool :=
  match s with
  | EmptyString => (false, after_bracket)
  | String c s' =>
      let (found, last) := scan_close (Ascii.eqb c "]") s' in
      (after_bracket && Ascii.eqb c ";" || found, last)
  end.

(** [pre] gives [marker] no place to start: no end of [pre] has [marker] at
    its start or is itself a start of [marker]. *)
Fixpoint no_start (marker pre : string) : bool :=
  match pre with
  | EmptyString => true
  | String _ pre' =>
      negb (String.prefix marker pre || String.prefix pre marker)
      && no_start marker pre'
  end.

(** The f-string [js_content] of [main] *)
Definition js_content (filtered_words words : list string) : string :=
  ("// Comprehensive list of English nouns" ++
   nl ++
   "// Source: The Great Noun List (desiquintans.com/nounlist)" ++
   nl ++
   nl ++
   "// Filtered list (concrete nouns only, ~" ++
   str_of_nat (List.length filtered_words) ++
   " words)" ++
   nl ++
   "const WORD_LIST = " ++
   json_dumps filtered_words ++
   ";" ++
   nl ++
   nl ++
   "// Original expanded list (~" ++
   str_of_nat (List.length words) ++
   " words)" ++
   nl ++
   "const WORD_LIST_EXPANDED = " ++
   json_dumps words ++
   ";" ++
   nl ++
   nl ++
   "// Convert arrays to sets for faster lookups" ++
   nl ++
   "const WORD_SET = new Set(WORD_LIST);" ++
   nl ++
   "const WORD_SET_EXPANDED = new Set(WORD_LIST_EXPANDED);" ++
   nl ++
   nl ++
   "// Default to filtered list, but allow switching" ++
   nl ++
   "let currentWordList = WORD_LIST;" ++
   nl ++
   "let currentWordSet = WORD_SET;" ++
   nl ++
   nl ++
   "function useExpandedWordList(useExpanded) {" ++
   nl ++
   "    if (useExpanded) {" ++
   nl ++
   "        currentWordList = WORD_LIST_EXPANDED;" ++
   nl ++
   "        currentWordSet = WORD_SET_EXPANDED;" ++
   nl ++
   "    } else {" ++
   nl ++
   "        currentWordList = WORD_LIST;" ++
   nl ++
   "        currentWordSet = WORD_SET;" ++
   nl ++
   "    }" ++
   nl ++
   "}" ++
   nl)%string.

(** The text of [words_new.js] that [main] writes for a word list *)
Definition words_new_js (words : list string) : string :=
  js_content (fst (FilterWords.main words)) words.

End FilterWordsFiles.

Import FilterWordsFiles.

(** A small corpus for the fixture taxonomy *)
Module CorpusFixture.

Definition all_synsets : list (list string) :=
  [ [ "chair"; "President"; "arm_chair" ];
    [ "London"; "Greater_London" ];
    [ "zebra"; "x-ray"; "chair" ] ].

Definition valley : Synset := {|
  name := "valley.n.01";
  definition :=
    "a long depression in the surface of the land that usually contains a river";
  hypernym_paths :=
    [ [ "entity.n.01"; "physical_entity.n.01"; "object.n.01";
        "geological_formation.n.01"; "natural_depression.n.01";
        "valley.n.01" ] ];
  instance_hypernyms := []
|}.

(** What [json.loads] gives, for texts that need no parsing here *)
Definition json_text (s : string) : string := s.

Definition souring : Synset := {|
  name := "souring.n.01";
  definition := "the process of becoming sour";
  hypernym_paths :=
    [ [ "entity.n.01"; "physical_entity.n.01"; "object.n.01";
        "whole.n.02"; "souring.n.01" ] ];
  instance_hypernyms := []
|}.

(** Two states of the process with the sets of the module and the fixture
    taxonomy, which differ in everything else *)
Definition world0 : World := {|
  w_PROFANITY := PROFANITY;
  w_ABSTRACT_SUFFIXES := ABSTRACT_SUFFIXES;
  w_ABSTRACT_WORDS := ABSTRACT_WORDS;
  w_ABSTRACT_KEYWORDS := ABSTRACT_KEYWORDS;
  w_wordnet := fun word =>
                 match word with
                 | PyStr s => Ok (Fixture.wn_synsets s)
                 | _ => Raise AttributeError
                 end;
  w_rest := []
|}.

Definition world1 : World := {|
  w_PROFANITY := PROFANITY;
  w_ABSTRACT_SUFFIXES := ABSTRACT_SUFFIXES;
  w_ABSTRACT_WORDS := ABSTRACT_WORDS;
  w_ABSTRACT_KEYWORDS := ABSTRACT_KEYWORDS;
  w_wordnet := fun word =>
                 match word with
                 | PyStr s => Ok (Fixture.wn_synsets s)
                 | _ => Raise AttributeError
                 end;
  w_rest := [42%Z; 7%Z]
|}.

End CorpusFixture.

(** ** Facts about the string operations *)

Section StringFacts.

Lemma str_in_In (x : string) (xs : list string) :
  str_in x xs = true <-> In x xs.
Proof.
  unfold str_in. rewrite existsb_exists. split.
  - intros (y & Hy & E). apply String.eqb_eq in E. now subst.
  - intros H. exists x. split; [assumption | apply String.eqb_refl].
Qed.

Lemma str_in_not_In (x : string) (xs : list string) :
  str_in x xs = false <-> ~ In x xs.
Proof.
  rewrite <- str_in_In. destruct (str_in x xs); split; intros; congruence.
Qed.

Lemma char_lower_idem (c : ascii) : char_lower (char_lower c) = char_lower c.
Proof.
  destruct c as [[] [] [] [] [] [] [] []]; reflexivity.
Qed.

Lemma lower_idem (s : string) : lower (lower s) = lower s.
Proof.
  induction s as [| c s IH]; simpl; [reflexivity |].
  now rewrite char_lower_idem, IH.
Qed.

Lemma lower_length (s : string) : String.length (lower s) = String.length s.
Proof.
  induction s as [| c s IH]; simpl; congruence.
Qed.

Lemma lower_app (s t : string) : lower (s ++ t) = (lower s ++ lower t)%string.
Proof.
  induction s as [| c s IH]; simpl; [reflexivity | now rewrite IH].
Qed.

(** [endswith] is "has this suffix". *)
Lemma endswith_spec (s suffix : string) :
  endswith s suffix = true <-> exists p, s = (p ++ suffix)%string.
Proof.
  induction s as [| c s IH]; cbn [endswith].
  - rewrite orb_false_r, String.eqb_eq. split.
    + intros <-. now exists "".
    + intros ([| ? ?] & E); simpl in E; [now symmetry | discriminate].
  - rewrite orb_true_iff, String.eqb_eq, IH. split.
    + intros [<- | (p & ->)]; [now exists "" | now exists (String c p)].
    + intros ([| d p] & E); simpl in E.
      * now left.
      * right. injection E as _ ->. now exists p.
Qed.

(** A word that ends with a lower-case suffix still does after [lower]. *)
Lemma endswith_lower (s suffix : string) :
  lower suffix = suffix ->
  endswith s suffix = true -> endswith (lower s) suffix = true.
Proof.
  intros Hl H. apply endswith_spec in H. destruct H as (p & ->).
  apply endswith_spec. exists (lower p). now rewrite lower_app, Hl.
Qed.

Lemma prefix_spec (t u : string) :
  String.prefix u t = true <-> exists b, t = (u ++ b)%string.
Proof.
  revert t.
  induction u as [| d u IHu]; intros [| c t]; simpl.
  - split; [now exists "" | reflexivity].
  - split; [now exists (String c t) | reflexivity].
  - split; [discriminate | intros (b & E); discriminate].
  - destruct (Ascii.ascii_dec d c) as [-> | N].
    + rewrite IHu. split; intros (b & E); exists b; congruence.
    + split; [discriminate | intros (b & E); congruence].
Qed.

(** [contains] is "has this substring". *)
Lemma contains_spec (s sub : string) :
  contains s sub = true <-> exists a b, s = (a ++ sub ++ b)%string.
Proof.
  induction s as [| c s IH]; cbn [contains].
  - rewrite orb_false_r, prefix_spec. split.
    + intros (b & E). exists "", b. exact E.
    + intros ([| ? ?] & b & E); simpl in E; [now exists b | discriminate].
  - rewrite orb_true_iff, prefix_spec, IH. split.
    + intros [(b & E) | (a & b & ->)].
      * exists "", b. exact E.
      * now exists (String c a), b.
    + intros ([| d a] & b & E); simpl in E.
      * left. now exists b.
      * right. injection E as _ ->. now exists a, b.
Qed.

End StringFacts.

(** ** The heuristic lexical classifier *)

Section Heuristic.

(** The suffix loop answers [true] exactly when some listed suffix ends the
    word and the word is not one of the exceptions. *)
Lemma suffix_loop_spec (w : string) (suffixes : list string) :
  suffix_loop w suffixes
  = existsb (endswith w) suffixes && negb (str_in w suffix_exceptions).
Proof.
  induction suffixes as [| suffix rest IH]; cbn [suffix_loop existsb];
    [reflexivity |].
  rewrite IH.
  destruct (endswith w suffix), (str_in w suffix_exceptions);
    cbn [negb orb andb]; rewrite ?andb_false_r, ?andb_true_r; reflexivity.
Qed.

Lemma is_abstract_noun_unfold (word : string) :
  is_abstract_noun word
  = str_in (lower word) ABSTRACT_WORDS
    || str_in (lower word) ABSTRACT_KEYWORDS
    || ((7 <? String.length word)
        && suffix_loop (lower word) ABSTRACT_SUFFIXES).
Proof.
  unfold is_abstract_noun.
  destruct (str_in (lower word) ABSTRACT_WORDS),
    (str_in (lower word) ABSTRACT_KEYWORDS),
    (7 <? String.length word),
    (suffix_loop (lower word) ABSTRACT_SUFFIXES); reflexivity.
Qed.

Lemma should_filter_unfold (word : string) :
  should_filter word = is_profane word || is_abstract_noun word.
Proof.
  unfold should_filter.
  destruct (is_profane word), (is_abstract_noun word); reflexivity.
Qed.

(** The classifier is case-insensitive. *)
Lemma should_filter_lower (word : string) :
  should_filter word = should_filter (lower word).
Proof.
  rewrite !should_filter_unfold, !is_abstract_noun_unfold.
  unfold is_profane. now rewrite lower_idem, lower_length.
Qed.

(** The source functions against the verdict of the specification. *)
Lemma spec_verdict_refines (word : string) :
  (spec_verdict word = Profane <-> is_profane word = true)
  /\ (spec_verdict word = Abstract
      <-> is_profane word = false /\ is_abstract_noun word = true)
  /\ (spec_verdict word = Keep <-> should_filter word = false).
Proof.
  rewrite should_filter_unfold, is_abstract_noun_unfold, suffix_loop_spec.
  unfold spec_verdict, is_profane.
  rewrite andb_assoc.
  destruct (str_in (lower word) PROFANITY),
    (str_in (lower word) ABSTRACT_WORDS),
    (str_in (lower word) ABSTRACT_KEYWORDS),
    ((7 <? String.length word)
     && existsb (endswith (lower word)) ABSTRACT_SUFFIXES
     && negb (str_in (lower word) suffix_exceptions));
    simpl; repeat split; intros; try tauto; try discriminate;
    try easy.
Qed.

(** C1, as the claim states it, fails: "portion" and "burden" are in the
    exception list of the suffix rule, and the classifier filters both;
    "portion" is an abstract keyword and "burden" an abstract word, and those
    checks come before the suffix rule. *)
Lemma whitelisted_words_filtered :
  In "portion" suffix_exceptions
  /\ should_filter "portion" = true
  /\ In "burden" suffix_exceptions
  /\ should_filter "burden" = true.
Proof.
  repeat split; try reflexivity; apply str_in_In; reflexivity.
Qed.

(** C1, amended: for every word whose lower-case form is in the exception
    list, the suffix rule never answers Abstract (the list overrides the
    suffix rule entirely); the word is filtered only when the profanity, the
    abstract-word or the abstract-keyword check matches it, and every word of
    the list other than "portion" and "burden" is kept. *)
Theorem whitelist_overrides_suffix_rule (word : string) :
  In (lower word) suffix_exceptions ->
  suffix_loop (lower word) ABSTRACT_SUFFIXES = false
  /\ (should_filter word = true
      <-> In (lower word) PROFANITY
          \/ In (lower word) ABSTRACT_WORDS
          \/ In (lower word) ABSTRACT_KEYWORDS)
  /\ (lower word <> "portion" -> lower word <> "burden" ->
      should_filter word = false /\ spec_verdict word = Keep).
Proof.
  intros Hw.
  assert (Hloop : suffix_loop (lower word) ABSTRACT_SUFFIXES = false).
  { rewrite suffix_loop_spec. apply str_in_In in Hw. rewrite Hw.
    apply andb_false_r. }
  split; [exact Hloop |]. split.
  - rewrite should_filter_unfold, is_abstract_noun_unfold, Hloop.
    rewrite andb_false_r, orb_false_r, !orb_true_iff.
    unfold is_profane. rewrite !str_in_In. tauto.
  - intros Hp Hb.
    assert (K : should_filter word = false).
    { rewrite should_filter_lower.
      simpl in Hw.
      repeat (destruct Hw as [Hw | Hw];
              [ rewrite <- Hw in *; try reflexivity; congruence |]).
      contradiction. }
    split; [exact K | now apply spec_verdict_refines].
Qed.

Lemma whitelist_overrides_suffix_rule_witness :
  In (lower "Television") suffix_exceptions
  /\ suffix_loop (lower "Television") ABSTRACT_SUFFIXES = false
  /\ should_filter "Television" = false.
Proof.
  assert (H : In (lower "Television") suffix_exceptions)
    by (apply str_in_In; reflexivity).
  split; [exact H |].
  destruct (whitelist_overrides_suffix_rule "Television" H) as (A & _ & C).
  split; [exact A |].
  apply C; discriminate.
Defined.

End Heuristic.

Section HeuristicOrder.

Lemma abstract_by_suffix (word suffix : string) :
  7 < String.length word ->
  In suffix ABSTRACT_SUFFIXES ->
  endswith (lower word) suffix = true ->
  ~ In (lower word) suffix_exceptions ->
  is_abstract_noun word = true.
Proof.
  intros Hlen Hsuf Hends Hexc.
  rewrite is_abstract_noun_unfold, suffix_loop_spec.
  apply Nat.ltb_lt in Hlen. rewrite Hlen.
  apply str_in_not_In in Hexc. rewrite Hexc.
  assert (E : existsb (endswith (lower word)) ABSTRACT_SUFFIXES = true).
  { apply existsb_exists. now exists suffix. }
  rewrite E. cbn [andb negb]. apply orb_true_r.
Qed.

Lemma ABSTRACT_SUFFIXES_lower (suffix : string) :
  In suffix ABSTRACT_SUFFIXES -> lower suffix = suffix.
Proof.
  intros H. cbn in H.
  repeat (destruct H as [<- | H]; [reflexivity |]). contradiction.
Qed.

(** C4: the suffix rule is gated by the length of the word.  A word of at
    most 7 characters is abstract only through the two curated sets, never
    through its suffix; a word of more than 7 characters that ends with a
    listed suffix, as written or once in lower case, and whose lower-case form
    (the word itself, for a lower-case word) is not in the exception list is
    abstract; "application" is such a word and its verdict is Abstract. *)
Theorem suffix_rule_length_gate :
  (forall word, String.length word <= 7 ->
     is_abstract_noun word
     = str_in (lower word) ABSTRACT_WORDS
       || str_in (lower word) ABSTRACT_KEYWORDS)
  /\ (forall word suffix,
        7 < String.length word ->
        In suffix ABSTRACT_SUFFIXES ->
        endswith word suffix = true \/ endswith (lower word) suffix = true ->
        ~ In (lower word) suffix_exceptions ->
        is_abstract_noun word = true)
  /\ (7 < String.length "application"
      /\ In "tion" ABSTRACT_SUFFIXES
      /\ endswith (lower "application") "tion" = true
      /\ ~ In (lower "application") suffix_exceptions
      /\ is_abstract_noun "application" = true
      /\ spec_verdict "application" = Abstract).
Proof.
  split; [| split].
  - intros word Hlen. rewrite is_abstract_noun_unfold.
    apply Nat.ltb_ge in Hlen. rewrite Hlen. cbn [andb].
    apply orb_false_r.
  - intros word suffix Hlen Hsuf Hends Hexc.
    apply (abstract_by_suffix word suffix); try assumption.
    destruct Hends as [H | H]; [| exact H].
    apply endswith_lower; [now apply ABSTRACT_SUFFIXES_lower | exact H].
  - repeat split; try reflexivity.
    + cbn. lia.
    + apply str_in_In. reflexivity.
    + apply str_in_not_In. reflexivity.
Qed.

Lemma suffix_rule_length_gate_witness :
  (String.length "mention" <= 7 /\ is_abstract_noun "mention" = false)
  /\ (7 < String.length "Carpentry"
      /\ In "ry" ABSTRACT_SUFFIXES
      /\ endswith (lower "Carpentry") "ry" = true
      /\ ~ In (lower "Carpentry") suffix_exceptions
      /\ is_abstract_noun "Carpentry" = true).
Proof.
  assert (L1 : String.length "mention" <= 7) by (cbn; lia).
  assert (L2 : 7 < String.length "Carpentry") by (cbn; lia).
  assert (S2 : In "ry" ABSTRACT_SUFFIXES) by (apply str_in_In; reflexivity).
  assert (E2 : endswith (lower "Carpentry") "ry" = true) by reflexivity.
  assert (X2 : ~ In (lower "Carpentry") suffix_exceptions)
    by (apply str_in_not_In; reflexivity).
  split.
  - split; [exact L1 |].
    rewrite (proj1 suffix_rule_length_gate "mention" L1). reflexivity.
  - repeat (split; [assumption |]).
    exact (proj1 (proj2 suffix_rule_length_gate) "Carpentry" "ry" L2 S2
             (or_intror E2) X2).
Defined.

(** C5: the checks run in the order profanity, abstract words, abstract
    keywords, suffix rule, and the first that matches gives the verdict.  A
    word of the profanity set is filtered as Profane whatever the abstract
    checks would say; a word outside it that an abstract check matches is
    filtered as Abstract; a word no check matches is kept. *)
Theorem checks_in_order (word : string) :
  (In (lower word) PROFANITY ->
     is_profane word = true
     /\ should_filter word = true
     /\ spec_verdict word = Profane)
  /\ (~ In (lower word) PROFANITY ->
      In (lower word) ABSTRACT_WORDS
      \/ In (lower word) ABSTRACT_KEYWORDS
      \/ (7 < String.length word
          /\ (exists suffix, In suffix ABSTRACT_SUFFIXES
                             /\ endswith (lower word) suffix = true)
          /\ ~ In (lower word) suffix_exceptions) ->
      is_profane word = false
      /\ is_abstract_noun word = true
      /\ should_filter word = true
      /\ spec_verdict word = Abstract)
  /\ (~ In (lower word) PROFANITY ->
      ~ In (lower word) ABSTRACT_WORDS ->
      ~ In (lower word) ABSTRACT_KEYWORDS ->
      ~ (7 < String.length word
         /\ (exists suffix, In suffix ABSTRACT_SUFFIXES
                            /\ endswith (lower word) suffix = true)
         /\ ~ In (lower word) suffix_exceptions) ->
      is_profane word = false
      /\ is_abstract_noun word = false
      /\ should_filter word = false
      /\ spec_verdict word = Keep).
Proof.
  destruct (spec_verdict_refines word) as (VP & VA & VK).
  split; [| split].
  - intros Hp. apply str_in_In in Hp.
    assert (P : is_profane word = true) by exact Hp.
    split; [exact P |]. split; [| now apply VP].
    rewrite should_filter_unfold, P. reflexivity.
  - intros Hp Hm. apply str_in_not_In in Hp.
    assert (P : is_profane word = false) by exact Hp.
    assert (A : is_abstract_noun word = true).
    { rewrite is_abstract_noun_unfold.
      destruct Hm as [Hw | [Hk | (Hlen & (suffix & Hs & He) & Hx)]].
      - apply str_in_In in Hw. rewrite Hw. reflexivity.
      - apply str_in_In in Hk. rewrite Hk.
        now rewrite orb_true_r.
      - rewrite <- is_abstract_noun_unfold.
        exact (abstract_by_suffix word suffix Hlen Hs He Hx). }
    split; [exact P |]. split; [exact A |]. split.
    + rewrite should_filter_unfold, P, A. reflexivity.
    + apply VA. now split.
  - intros Hp Hw Hk Hs. apply str_in_not_In in Hp, Hw, Hk.
    assert (P : is_profane word = false) by exact Hp.
    assert (A : is_abstract_noun word = false).
    { rewrite is_abstract_noun_unfold, suffix_loop_spec, Hw, Hk.
      cbn [orb].
      destruct (7 <? String.length word) eqn:L; [| reflexivity].
      destruct (existsb (endswith (lower word)) ABSTRACT_SUFFIXES) eqn:E;
        [| reflexivity].
      destruct (str_in (lower word) suffix_exceptions) eqn:X;
        [reflexivity |].
      exfalso. apply Hs. split; [now apply Nat.ltb_lt |]. split.
      - apply existsb_exists in E. destruct E as (suffix & ? & ?).
        now exists suffix.
      - now apply str_in_not_In. }
    split; [exact P |]. split; [exact A |].
    assert (F : should_filter word = false)
      by (rewrite should_filter_unfold, P, A; reflexivity).
    split; [exact F | now apply VK].
Qed.

Lemma checks_in_order_witness :
  (In (lower "fucking") PROFANITY /\ spec_verdict "fucking" = Profane)
  /\ (~ In (lower "Ability") PROFANITY
      /\ In (lower "Ability") ABSTRACT_WORDS
      /\ spec_verdict "Ability" = Abstract)
  /\ (~ In (lower "elephant") PROFANITY
      /\ ~ In (lower "elephant") ABSTRACT_WORDS
      /\ ~ In (lower "elephant") ABSTRACT_KEYWORDS
      /\ should_filter "elephant" = false
      /\ spec_verdict "elephant" = Keep).
Proof.
  assert (P1 : In (lower "fucking") PROFANITY)
    by (apply str_in_In; reflexivity).
  assert (P2 : ~ In (lower "Ability") PROFANITY)
    by (apply str_in_not_In; reflexivity).
  assert (W2 : In (lower "Ability") ABSTRACT_WORDS)
    by (apply str_in_In; reflexivity).
  assert (P3 : ~ In (lower "elephant") PROFANITY)
    by (apply str_in_not_In; reflexivity).
  assert (W3 : ~ In (lower "elephant") ABSTRACT_WORDS)
    by (apply str_in_not_In; reflexivity).
  assert (K3 : ~ In (lower "elephant") ABSTRACT_KEYWORDS)
    by (apply str_in_not_In; reflexivity).
  assert (S3 : ~ (7 < String.length "elephant"
                  /\ (exists suffix, In suffix ABSTRACT_SUFFIXES
                         /\ endswith (lower "elephant") suffix = true)
                  /\ ~ In (lower "elephant") suffix_exceptions)).
  { intros (_ & (suffix & Hs & He) & _).
    assert (E : existsb (endswith (lower "elephant")) ABSTRACT_SUFFIXES = true)
      by (apply existsb_exists; now exists suffix).
    vm_compute in E. discriminate E. }
  split; [| split].
  - split; [exact P1 |].
    exact (proj2 (proj2 (proj1 (checks_in_order "fucking") P1))).
  - split; [exact P2 |]. split; [exact W2 |].
    exact (proj2 (proj2 (proj2
             (proj1 (proj2 (checks_in_order "Ability")) P2 (or_introl W2))))).
  - split; [exact P3 |]. split; [exact W3 |]. split; [exact K3 |].
    exact (proj2 (proj2
             (proj2 (proj2 (checks_in_order "elephant")) P3 W3 K3 S3))).
Defined.

End HeuristicOrder.

(** ** The loop of [main] in [filter_words.py] *)

Section Partition.

Lemma main_loop_spec (words filtered_words removed_words : list string) :
  main_loop words filtered_words removed_words
  = (filtered_words ++ filter (fun w => negb (should_filter w)) words,
     removed_words ++ filter should_filter words).
Proof.
  revert filtered_words removed_words.
  induction words as [| word rest IH]; intros f r; cbn [main_loop filter].
  - now rewrite !app_nil_r.
  - destruct (should_filter word); cbn [negb]; rewrite IH, <- app_assoc;
      reflexivity.
Qed.

Lemma select_map_filter {A : Type} (p : A -> bool) (l : list A) :
  select (map p l) l = filter p l.
Proof.
  induction l as [| x l IH]; cbn [map select filter]; [reflexivity |].
  now rewrite IH.
Qed.

Lemma filter_Subseq {A : Type} (p : A -> bool) (l : list A) :
  Subseq (filter p l) l.
Proof.
  induction l as [| x l IH]; cbn [filter]; [constructor |].
  destruct (p x); now constructor.
Qed.

Lemma filter_split_Permutation {A : Type} (p : A -> bool) (l : list A) :
  Permutation (filter (fun x => negb (p x)) l ++ filter p l) l.
Proof.
  induction l as [| x l IH]; cbn [filter]; [constructor |].
  destruct (p x); cbn [negb app].
  - symmetry. apply Permutation_cons_app. now symmetry.
  - now constructor.
Qed.

(** C7: the loop of [main] splits the word list in two.  With the mask that
    marks the positions [should_filter] rejects, the removed list is the input
    at the marked positions and the kept list the input at the others, so the
    two are disjoint in position and every position lands in exactly one;
    each keeps the order of the input, and together they hold the words of the
    input with their multiplicities. *)
Theorem main_partitions_words (words : list string) :
  let kept := fst (main words) in
  let removed := snd (main words) in
  let mask := map should_filter words in
  List.length mask = List.length words
  /\ removed = select mask words
  /\ kept = select (map negb mask) words
  /\ kept = filter (fun w => negb (should_filter w)) words
  /\ removed = filter should_filter words
  /\ Subseq kept words
  /\ Subseq removed words
  /\ Permutation (kept ++ removed) words
  /\ List.length kept + List.length removed = List.length words.
Proof.
  unfold main. rewrite main_loop_spec. cbn [fst snd app].
  repeat split.
  - apply length_map.
  - symmetry. apply select_map_filter.
  - rewrite map_map. symmetry.
    apply (select_map_filter (fun w => negb (should_filter w))).
  - apply filter_Subseq.
  - apply filter_Subseq.
  - apply filter_split_Permutation.
  - rewrite <- length_app.
    apply Permutation_length, filter_split_Permutation.
Qed.

(** No word is both kept and removed: two occurrences of a word get the same
    answer wherever they stand in the list. *)
Lemma main_same_word_same_side (words : list string) (w : string) :
  In w (fst (main words)) -> ~ In w (snd (main words)).
Proof.
  unfold main. rewrite main_loop_spec. cbn [fst snd app].
  rewrite !filter_In. intros (_ & H1) (_ & H2). rewrite H2 in H1.
  discriminate.
Qed.

End Partition.

(** ** The taxonomy-based classifier *)

Section Taxonomy.

Lemma intersects_spec (a b : list string) :
  intersects a b = true <-> exists h, In h a /\ In h b.
Proof.
  unfold intersects. rewrite existsb_exists.
  split; intros (h & Ha & Hb); exists h; split; try assumption;
    now apply str_in_In.
Qed.

Lemma existsb_false_iff {A : Type} (p : A -> bool) (l : list A) :
  existsb p l = false <-> forall x, In x l -> p x = false.
Proof.
  induction l as [| y l IH]; cbn [existsb].
  - split; [intros _ x [] | reflexivity].
  - rewrite orb_false_iff, IH. split.
    + intros (Hy & Hl) x [<- | Hx]; auto.
    + intros H. split; [apply H; now left |].
      intros x Hx. apply H. now right.
Qed.

(** The loop body returns [True] exactly on the senses that qualify. *)
Lemma sense_returns_true_spec (word : string) (sense : Synset) :
  sense_returns_true word sense = true <-> spec_sense_qualifies word sense.
Proof.
  unfold sense_returns_true, spec_sense_qualifies.
  set (ancestors := List.concat (hypernym_paths sense)).
  set (text := lower (definition sense)).
  rewrite <- !intersects_spec, <- !existsb_false_iff.
  destruct (intersects ancestors concrete_roots); cbn [negb];
    [| split; [discriminate | intros (H & _); discriminate]].
  destruct (intersects ancestors abstract_roots);
    [split; [discriminate | intros (_ & H & _); now contradiction H] |].
  destruct (existsb (fun keyword => contains text keyword) abstract_keywords);
    [split; [discriminate | intros (_ & _ & H & _); discriminate] |].
  destruct (existsb (fun keyword => contains text keyword) technical_keywords);
    [split; [discriminate | intros (_ & _ & _ & H & _); discriminate] |].
  destruct (8 <? String.length word) eqn:L; cbn [andb].
  - apply Nat.ltb_lt in L.
    destruct (existsb (fun suffix => endswith word suffix) formal_suffixes)
      eqn:S.
    + apply existsb_exists in S.
      destruct (contains text "reproduction") eqn:R1; cbn [orb].
      { split; [discriminate |]. intros (_ & _ & _ & _ & H).
        exfalso. apply H. auto. }
      destruct (contains text "duplication") eqn:R2; cbn [orb].
      { split; [discriminate |]. intros (_ & _ & _ & _ & H).
        exfalso. apply H. auto. }
      destruct (contains text "replication") eqn:R3.
      { split; [discriminate |]. intros (_ & _ & _ & _ & H).
        exfalso. apply H. auto. }
      split; [| reflexivity]. intros _.
      repeat split; try reflexivity; try discriminate.
      intros (_ & _ & [H | [H | H]]); discriminate.
    + split; [| reflexivity]. intros _.
      repeat split; try reflexivity; try discriminate.
      intros (_ & (suffix & Hs & He) & _).
      assert (X : existsb (fun suffix => endswith word suffix)
                    formal_suffixes = true)
        by (apply existsb_exists; now exists suffix).
      congruence.
  - apply Nat.ltb_ge in L.
    split; [| reflexivity]. intros _.
    repeat split; try reflexivity; try discriminate.
    intros (H & _). lia.
Qed.

Lemma synset_loop_existsb (word : string) (synsets : list Synset) :
  match synset_loop word synsets with
  | Some _ => true
  | None => false
  end = existsb (sense_returns_true word) synsets.
Proof.
  induction synsets as [| s rest IH]; cbn [synset_loop existsb];
    [reflexivity |].
  rewrite <- IH.
  destruct (sense_returns_true word s); [reflexivity |].
  now destruct (synset_loop word rest).
Qed.

Lemma is_concrete_noun_existsb (wn : string -> list Synset) (word : string) :
  is_concrete_noun wn word = existsb (sense_returns_true word) (wn word).
Proof.
  unfold is_concrete_noun. rewrite synset_loop_existsb.
  now destruct (wn word).
Qed.

(** The loop returns at the first sense that qualifies. *)
Lemma synset_loop_first (word : string) (before after : list Synset)
      (sense : Synset) :
  (forall s, In s before -> sense_returns_true word s = false) ->
  sense_returns_true word sense = true ->
  synset_loop word (before ++ sense :: after) = Some (List.length before).
Proof.
  intros Hb Hs.
  induction before as [| b before IH]; cbn [app synset_loop List.length].
  - now rewrite Hs.
  - rewrite (Hb b (or_introl eq_refl)), IH; [reflexivity |].
    intros s Hin. apply Hb. now right.
Qed.

(** Where the loop returns, the sense qualifies and none before it does. *)
Lemma synset_loop_Some (word : string) (synsets : list Synset) (n : nat) :
  synset_loop word synsets = Some n ->
  exists before sense after,
    synsets = before ++ sense :: after
    /\ List.length before = n
    /\ (forall s, In s before -> sense_returns_true word s = false)
    /\ sense_returns_true word sense = true.
Proof.
  revert n. induction synsets as [| s rest IH]; intros n; cbn [synset_loop];
    [discriminate |].
  destruct (sense_returns_true word s) eqn:E.
  - intros [= <-]. exists [], s, rest. repeat split; [now intros ? [] | exact E].
  - destruct (synset_loop word rest) as [m |]; [| discriminate].
    intros [= <-]. destruct (IH m eq_refl) as (b & x & a & -> & L & Hb & Hx).
    exists (s :: b), x, a. cbn [app List.length]. rewrite L.
    repeat split; [| exact Hx].
    intros y [<- | Hy]; [exact E | now apply Hb].
Qed.

End Taxonomy.

Section TaxonomyClaims.

Variable wn : string -> list Synset.

(** C2: the taxonomy-based classifier is an any-sense disjunction that
    returns at the first qualifying sense.  When the senses of a word, in the
    order the taxonomy returns them, are some senses that do not qualify, then
    one that does, then any others, the loop of [is_concrete_noun] returns at
    that sense, whatever follows it, and the verdict is Concrete; the verdict
    is Concrete exactly when some sense qualifies, so a word with one
    qualifying physical-object sense and one abstract sense, in either order,
    is Concrete. *)
Theorem any_sense_concrete (word : string) :
  (forall before sense after,
      wn word = before ++ sense :: after ->
      (forall s, In s before -> ~ spec_sense_qualifies word s) ->
      spec_sense_qualifies word sense ->
      synset_loop word (wn word) = Some (List.length before)
      /\ is_concrete_noun wn word = true)
  /\ (forall n,
        synset_loop word (wn word) = Some n ->
        exists before sense after,
          wn word = before ++ sense :: after
          /\ List.length before = n
          /\ (forall s, In s before -> ~ spec_sense_qualifies word s)
          /\ spec_sense_qualifies word sense)
  /\ (is_concrete_noun wn word = true
      <-> exists sense, In sense (wn word) /\ spec_sense_qualifies word sense)
  /\ (forall physical abstract,
        spec_sense_qualifies word physical ->
        ~ spec_sense_qualifies word abstract ->
        (wn word = [physical; abstract] \/ wn word = [abstract; physical]) ->
        is_concrete_noun wn word = true).
Proof.
  assert (Any : is_concrete_noun wn word = true
                <-> exists sense, In sense (wn word)
                                  /\ spec_sense_qualifies word sense).
  { rewrite is_concrete_noun_existsb, existsb_exists.
    split; intros (sense & Hin & Hq); exists sense; split; try exact Hin;
      now apply sense_returns_true_spec. }
  split; [| split; [| split]].
  - intros before sense after Hwn Hb Hs. split.
    + rewrite Hwn. apply synset_loop_first.
      * intros s Hin. specialize (Hb s Hin).
        rewrite <- sense_returns_true_spec in Hb.
        now destruct (sense_returns_true word s).
      * now apply sense_returns_true_spec.
    + apply Any. exists sense. split; [| exact Hs].
      rewrite Hwn. apply in_elt.
  - intros n Hn.
    destruct (synset_loop_Some _ _ _ Hn) as (b & x & a & E & L & Hb & Hx).
    exists b, x, a. split; [exact E |]. split; [exact L |]. split.
    + intros y Hy Q. apply sense_returns_true_spec in Q.
      rewrite (Hb y Hy) in Q. discriminate Q.
    + now apply sense_returns_true_spec.
  - exact Any.
  - intros physical abstract Hp _ Hwn. apply Any. exists physical.
    split; [| exact Hp].
    destruct Hwn as [-> | ->]; cbn; auto.
Qed.

(** C6: a word with no noun sense in the taxonomy is Abstract. *)
Theorem no_senses_abstract (word : string) :
  wn word = [] -> is_concrete_noun wn word = false.
Proof.
  intros H. unfold is_concrete_noun. now rewrite H.
Qed.

(** What [is_valid_word] answers, case by case. *)
Lemma is_valid_word_unfold (word : string) :
  is_valid_word wn word
  = Ok (isalpha word
        && match word with
           | EmptyString => false
           | String c _ => negb (char_isupper c)
           end
        && negb (nonempty (wn word)
                 && forallb (fun synset => nonempty (instance_hypernyms synset))
                            (wn word))).
Proof.
  unfold is_valid_word.
  destruct word as [| c rest]; [reflexivity |].
  destruct (isalpha (String c rest)); [| reflexivity].
  cbn [negb first_char bind andb].
  destruct (char_isupper c); [reflexivity |].
  cbn [negb andb].
  destruct (nonempty (wn (String c rest))); [| reflexivity].
  cbn [andb].
  now destruct (forallb _ _).
Qed.

Lemma all_proper_Forall (synsets : list Synset) :
  forallb (fun synset => nonempty (instance_hypernyms synset)) synsets = true
  <-> Forall named_instance synsets.
Proof.
  rewrite forallb_forall, Forall_forall. unfold named_instance.
  split; intros H s Hs; specialize (H s Hs);
    destruct (instance_hypernyms s); cbn in *; congruence.
Qed.

(** C3, amended: the filter accepts a token exactly when it is alphabetic
    (which the empty token is not), its first character is not upper-case,
    and either the taxonomy has no noun sense for it or one of its noun senses
    is not a named-instance sense.  It rejects "Paris" and "7up" under every
    taxonomy, and accepts "chair" when the taxonomy has no sense for it or a
    sense of it that is not a named instance. *)
Theorem valid_word_iff (word : string) :
  (is_valid_word wn word = Ok true
   <-> isalpha word = true
       /\ (exists c, first_char word = Ok c /\ char_isupper c = false)
       /\ (wn word = [] \/ ~ Forall named_instance (wn word)))
  /\ (exists b, is_valid_word wn word = Ok b)
  /\ is_valid_word wn "Paris" = Ok false
  /\ is_valid_word wn "7up" = Ok false
  /\ (wn "chair" = [] \/ ~ Forall named_instance (wn "chair") ->
      is_valid_word wn "chair" = Ok true).
Proof.
  assert (Iff : forall w,
             is_valid_word wn w = Ok true
             <-> isalpha w = true
                 /\ (exists c, first_char w = Ok c /\ char_isupper c = false)
                 /\ (wn w = [] \/ ~ Forall named_instance (wn w))).
  { intros w. rewrite is_valid_word_unfold, <- all_proper_Forall.
    destruct (isalpha w); cbn [andb];
      [| split; [discriminate | intros (H & _); discriminate]].
    destruct w as [| c rest]; cbn [first_char].
    - split; [discriminate | intros (_ & (c & H & _) & _); discriminate].
    - destruct (char_isupper c) eqn:U; cbn [negb andb].
      + split; [discriminate |].
        intros (_ & (c' & H & H') & _). injection H as <-. congruence.
      + destruct (wn (String c rest)) as [| s ss] eqn:E; cbn [nonempty andb].
        * split; [| reflexivity]. intros _.
          split; [reflexivity |]. split; [now exists c | now left].
        * destruct (forallb _ (s :: ss)); cbn [negb].
          { split; [discriminate |].
            intros (_ & _ & [H | H]); [discriminate | now contradiction H]. }
          { split; [| reflexivity]. intros _.
            split; [reflexivity |]. split; [now exists c |].
            right. discriminate. } }
  split; [apply Iff |]. split; [| split; [| split]].
  - rewrite is_valid_word_unfold. eexists. reflexivity.
  - rewrite is_valid_word_unfold. reflexivity.
  - rewrite is_valid_word_unfold. reflexivity.
  - intros H. apply Iff. split; [reflexivity |].
    split; [exists "c"%char; now split | exact H].
Qed.

(** C10: a token the taxonomy does not know is accepted when it is alphabetic
    and does not start with an upper-case character; the rejection of words
    that are only names needs at least one sense. *)
Theorem unknown_word_valid (word : string) :
  isalpha word = true ->
  (exists c, first_char word = Ok c /\ char_isupper c = false) ->
  (wn word = [] -> is_valid_word wn word = Ok true)
  /\ (is_valid_word wn word = Ok false ->
      wn word <> [] /\ Forall named_instance (wn word)).
Proof.
  intros Ha (c & Hc & Hu).
  rewrite is_valid_word_unfold, Ha.
  destruct word as [| c' rest]; [discriminate |].
  injection Hc as ->. rewrite Hu. cbn [negb andb]. split.
  - intros ->. reflexivity.
  - destruct (wn (String c rest)) as [| s ss]; cbn [nonempty andb];
      [discriminate |].
    destruct (forallb _ (s :: ss)) eqn:F; [| discriminate].
    intros _. split; [discriminate | now apply all_proper_Forall].
Qed.

End TaxonomyClaims.

Section Determinism.

Lemma main_filter (words : list string) :
  main words
  = (filter (fun w => negb (should_filter w)) words,
     filter should_filter words).
Proof.
  unfold main. now rewrite main_loop_spec.
Qed.

Lemma filter_idem {A : Type} (p : A -> bool) (l : list A) :
  filter p (filter p l) = filter p l.
Proof.
  induction l as [| x l IH]; cbn [filter]; [reflexivity |].
  destruct (p x) eqn:E; cbn [filter]; [rewrite E |]; now rewrite ?IH.
Qed.

Lemma filter_none {A : Type} (p q : A -> bool) (l : list A) :
  (forall x, p x = true -> q x = false) ->
  filter q (filter p l) = [].
Proof.
  intros H. induction l as [| x l IH]; cbn [filter]; [reflexivity |].
  destruct (p x) eqn:E; cbn [filter]; [rewrite (H x E) |]; exact IH.
Qed.

End Determinism.

(** ** The properties on the small taxonomy *)

Section OnFixture.

Import Fixture.

(** C3, as the claim states it, fails on a token the taxonomy does not know:
    with no sense at all, every sense of "chair" is a named-instance sense,
    and the filter accepts the token. *)
Lemma valid_word_without_senses :
  is_valid_word wn_empty "chair" = Ok true
  /\ Forall named_instance (wn_empty "chair")
  /\ ~ (is_valid_word wn_empty "chair" = Ok true
        <-> isalpha "chair" = true
            /\ (exists c, first_char "chair" = Ok c /\ char_isupper c = false)
            /\ ~ Forall named_instance (wn_empty "chair")).
Proof.
  split; [reflexivity |]. split; [constructor |].
  intros (H & _). destruct (H eq_refl) as (_ & _ & N).
  apply N. constructor.
Qed.

Lemma chair_not_only_a_name : ~ Forall named_instance (wn_synsets "chair").
Proof.
  intros H. apply all_proper_Forall in H. discriminate H.
Defined.

Lemma chair_seat_qualifies : spec_sense_qualifies "chair" chair_seat.
Proof.
  apply sense_returns_true_spec. reflexivity.
Defined.

Lemma chair_professorship_fails :
  ~ spec_sense_qualifies "chair" chair_professorship.
Proof.
  intros H. apply sense_returns_true_spec in H. discriminate H.
Defined.

Lemma any_sense_concrete_witness :
  wn_synsets "chair" = [chair_professorship] ++ chair_seat :: []
  /\ ~ spec_sense_qualifies "chair" chair_professorship
  /\ spec_sense_qualifies "chair" chair_seat
  /\ synset_loop "chair" (wn_synsets "chair") = Some 1
  /\ is_concrete_noun wn_synsets "chair" = true.
Proof.
  split; [reflexivity |].
  split; [exact chair_professorship_fails |].
  split; [exact chair_seat_qualifies |].
  apply (proj1 (any_sense_concrete wn_synsets "chair")
           [chair_professorship] chair_seat [] eq_refl).
  - intros s [<- | []]. exact chair_professorship_fails.
  - exact chair_seat_qualifies.
Defined.

Lemma no_senses_abstract_witness :
  wn_synsets "zebra" = [] /\ is_concrete_noun wn_synsets "zebra" = false.
Proof.
  split; [reflexivity |].
  apply (no_senses_abstract wn_synsets "zebra"). reflexivity.
Defined.

Lemma valid_word_iff_witness :
  ~ Forall named_instance (wn_synsets "chair")
  /\ is_valid_word wn_synsets "chair" = Ok true
  /\ is_valid_word wn_synsets "Paris" = Ok false.
Proof.
  split; [exact chair_not_only_a_name |].
  destruct (valid_word_iff wn_synsets "chair") as (_ & _ & P & _ & C).
  split; [| exact P].
  apply C. right. exact chair_not_only_a_name.
Defined.

Lemma unknown_word_valid_witness :
  isalpha "zebra" = true
  /\ (exists c, first_char "zebra" = Ok c /\ char_isupper c = false)
  /\ wn_synsets "zebra" = []
  /\ is_valid_word wn_synsets "zebra" = Ok true.
Proof.
  assert (F : exists c, first_char "zebra" = Ok c /\ char_isupper c = false)
    by (exists "z"%char; split; reflexivity).
  split; [reflexivity |]. split; [exact F |]. split; [reflexivity |].
  apply (proj1 (unknown_word_valid wn_synsets "zebra" eq_refl F)).
  reflexivity.
Defined.

End OnFixture.

(** ** The order of [str] and [sorted] *)

Section StringOrder.

Lemma ascii_compare_refl (a : ascii) : Ascii.compare a a = Eq.
Proof. apply N.compare_refl. Qed.

Lemma ascii_compare_lt_trans (a b c : ascii) :
  Ascii.compare a b = Lt -> Ascii.compare b c = Lt -> Ascii.compare a c = Lt.
Proof.
  unfold Ascii.compare. rewrite !N.compare_lt_iff. apply N.lt_trans.
Qed.

Lemma string_compare_refl (s : string) : String.compare s s = Eq.
Proof.
  induction s as [| c s IH]; cbn [String.compare]; [reflexivity |].
  now rewrite ascii_compare_refl.
Qed.

Lemma string_compare_lt_trans (s t u : string) :
  String.compare s t = Lt -> String.compare t u = Lt ->
  String.compare s u = Lt.
Proof.
  revert t u.
  induction s as [| a s IH]; intros [| b t] [| c u]; cbn [String.compare];
    try discriminate; try reflexivity.
  destruct (Ascii.compare a b) eqn:Eab; try discriminate;
    destruct (Ascii.compare b c) eqn:Ebc; try discriminate; intros H1 H2.
  - apply Ascii.compare_eq_iff in Eab, Ebc. subst.
    rewrite ascii_compare_refl. eapply IH; eassumption.
  - apply Ascii.compare_eq_iff in Eab. subst. now rewrite Ebc.
  - apply Ascii.compare_eq_iff in Ebc. subst. now rewrite Eab.
  - now rewrite (ascii_compare_lt_trans a b c).
Qed.

Lemma string_ltb_trans (s t u : string) :
  String.ltb s t = true -> String.ltb t u = true -> String.ltb s u = true.
Proof.
  unfold String.ltb.
  destruct (String.compare s t) eqn:E1; try discriminate.
  destruct (String.compare t u) eqn:E2; try discriminate.
  now rewrite (string_compare_lt_trans s t u).
Qed.

Lemma string_ltb_irrefl (s : string) : String.ltb s s = false.
Proof.
  unfold String.ltb. now rewrite string_compare_refl.
Qed.

Lemma string_leb_ltb (s t : string) :
  String.leb s t = true -> s <> t -> String.ltb s t = true.
Proof.
  unfold String.leb, String.ltb.
  destruct (String.compare s t) eqn:E; try discriminate; try reflexivity.
  apply String.compare_eq_iff in E. congruence.
Qed.

Lemma string_ltb_leb (s t : string) :
  String.ltb s t = true -> String.leb s t = true.
Proof.
  unfold String.leb, String.ltb. now destruct (String.compare s t).
Qed.

Lemma string_nleb_ltb (s t : string) :
  String.leb s t = false -> String.ltb t s = true.
Proof.
  unfold String.leb, String.ltb. rewrite (String.compare_antisym t s).
  now destruct (String.compare s t).
Qed.

Lemma insert_sorted_Permutation (x : string) (l : list string) :
  Permutation (insert_sorted x l) (x :: l).
Proof.
  induction l as [| y l IH]; cbn [insert_sorted]; [reflexivity |].
  destruct (String.leb x y); [reflexivity |].
  rewrite IH. apply perm_swap.
Qed.

Lemma sorted_Permutation (l : list string) : Permutation (sorted l) l.
Proof.
  induction l as [| x l IH]; cbn [sorted]; [reflexivity |].
  rewrite insert_sorted_Permutation. now constructor.
Qed.

(** On a list without repetitions [sorted] is strictly ascending. *)
Lemma insert_sorted_strict (x : string) (l : list string) :
  ~ In x l -> StronglySorted str_lt l ->
  StronglySorted str_lt (insert_sorted x l).
Proof.
  intros Hx Hs. induction Hs as [| y l Hs IH Hy]; cbn [insert_sorted].
  - repeat constructor.
  - destruct (String.leb x y) eqn:E.
    + assert (Lxy : str_lt x y).
      { apply string_leb_ltb; [exact E |]. intros ->. apply Hx. now left. }
      constructor; [now constructor |].
      constructor; [exact Lxy |].
      rewrite Forall_forall in *. intros z Hz.
      eapply string_ltb_trans; [exact Lxy | now apply Hy].
    + constructor.
      * apply IH. intros H. apply Hx. now right.
      * assert (P := insert_sorted_Permutation x l).
        rewrite Forall_forall in *. intros z Hz.
        apply (Permutation_in _ P) in Hz. destruct Hz as [<- | Hz].
        -- now apply string_nleb_ltb.
        -- now apply Hy.
Qed.

Lemma sorted_strict (l : list string) :
  NoDup l -> StronglySorted str_lt (sorted l).
Proof.
  induction 1 as [| x l Hx Hn IH]; cbn [sorted]; [constructor |].
  apply insert_sorted_strict; [| exact IH].
  intros H. apply Hx. now apply (Permutation_in _ (sorted_Permutation l)).
Qed.

(** [sorted] leaves a strictly ascending list as it is. *)
Lemma sorted_fixed (l : list string) :
  StronglySorted str_lt l -> sorted l = l.
Proof.
  induction 1 as [| x l Hs IH Hx]; cbn [sorted]; [reflexivity |].
  rewrite IH. destruct l as [| y l]; [reflexivity |].
  cbn [insert_sorted].
  now rewrite (string_ltb_leb x y (Forall_inv Hx)).
Qed.

Lemma filter_strict (p : string -> bool) (l : list string) :
  StronglySorted str_lt l -> StronglySorted str_lt (filter p l).
Proof.
  induction 1 as [| x l Hs IH Hx]; cbn [filter]; [constructor |].
  destruct (p x); [| exact IH].
  constructor; [exact IH |].
  rewrite Forall_forall in *. intros z Hz. apply filter_In in Hz.
  now apply Hx.
Qed.

Lemma strict_NoDup (l : list string) : StronglySorted str_lt l -> NoDup l.
Proof.
  induction 1 as [| x l Hs IH Hx]; constructor; [| exact IH].
  intros Hin. rewrite Forall_forall in Hx. specialize (Hx x Hin).
  unfold str_lt in Hx. now rewrite string_ltb_irrefl in Hx.
Qed.

End StringOrder.

(** ** [get_concrete_nouns] *)

Section CharFacts.

Lemma char_lower_not_upper (c : ascii) : char_isupper (char_lower c) = false.
Proof. destruct c as [[] [] [] [] [] [] [] []]; reflexivity. Qed.

Lemma char_lower_alpha (c : ascii) :
  char_isalpha (char_lower c) = char_isalpha c.
Proof. destruct c as [[] [] [] [] [] [] [] []]; reflexivity. Qed.

Lemma char_alpha_no_separator (c : ascii) :
  char_isalpha c = true ->
  Ascii.eqb c " " = false /\ Ascii.eqb c "-" = false
  /\ Ascii.eqb c "_" = false /\ Ascii.eqb c "]" = false.
Proof.
  destruct c as [[] [] [] [] [] [] [] []]; intros H;
    try discriminate H; repeat split.
Qed.

Lemma all_alpha_lower (s : string) : all_alpha (lower s) = all_alpha s.
Proof.
  induction s as [| c s IH]; cbn [lower all_alpha]; [reflexivity |].
  now rewrite char_lower_alpha, IH.
Qed.

Lemma isalpha_lower (s : string) : isalpha (lower s) = isalpha s.
Proof.
  destruct s as [| c s]; [reflexivity |].
  apply (all_alpha_lower (String c s)).
Qed.

Lemma isalpha_all_alpha (s : string) : isalpha s = true -> all_alpha s = true.
Proof. now destruct s. Qed.

Lemma no_upper_lower (s : string) : no_upper (lower s) = true.
Proof.
  induction s as [| c s IH]; cbn [lower no_upper]; [reflexivity |].
  now rewrite char_lower_not_upper, IH.
Qed.

(** [x in s] for a one-character string [x] *)
Lemma contains_char_cons (x c : ascii) (s : string) :
  contains (String c s) (String x "")
  = Ascii.eqb c x || contains s (String x "").
Proof.
  cbn [contains String.prefix]. f_equal.
  destruct (Ascii.ascii_dec x c) as [-> | N].
  - rewrite Ascii.eqb_refl. now destruct s.
  - symmetry. apply Ascii.eqb_neq. congruence.
Qed.

Lemma all_alpha_no_separator (s : string) :
  all_alpha s = true ->
  contains s " " = false /\ contains s "-" = false
  /\ replace_char "_" " " s = s.
Proof.
  induction s as [| c s IH]; [now repeat split |].
  cbn [all_alpha replace_char]. rewrite !contains_char_cons.
  intros H. apply andb_true_iff in H. destruct H as (Hc & Hs).
  destruct (char_alpha_no_separator c Hc) as (E1 & E2 & E3 & _).
  destruct (IH Hs) as (I1 & I2 & I3).
  rewrite E1, E2, E3, I1, I2, I3. now repeat split.
Qed.

Lemma all_alpha_replaced (s : string) :
  all_alpha (replace_char "_" " " s) = true -> replace_char "_" " " s = s.
Proof.
  induction s as [| c s IH]; [reflexivity |].
  cbn [all_alpha replace_char]. intros H.
  apply andb_true_iff in H. destruct H as (Hc & Hs).
  rewrite (IH Hs). destruct (Ascii.eqb c "_"); [discriminate Hc | reflexivity].
Qed.

End CharFacts.

Section NounListFacts.

Variable wn : string -> list Synset.

Lemma set_add_In (x w : string) (s : list string) :
  In w (set_add x s) <-> In w s \/ w = x.
Proof.
  unfold set_add. destruct (str_in x s) eqn:E.
  - apply str_in_In in E. split; [auto | intros [H | ->]; assumption].
  - rewrite in_app_iff. cbn [In]. intuition congruence.
Qed.

Lemma set_add_NoDup (x : string) (s : list string) :
  NoDup s -> NoDup (set_add x s).
Proof.
  intros H. unfold set_add. destruct (str_in x s) eqn:E; [exact H |].
  apply str_in_not_In in E.
  apply (Permutation_NoDup (l := x :: s)); [| now constructor].
  apply Permutation_cons_append.
Qed.

(** On a lower-cased word the upper-case test of [is_valid_word] is idle. *)
Lemma is_valid_word_lower (word : string) :
  is_valid_word wn (lower word)
  = Ok (isalpha word
        && negb (nonempty (wn (lower word))
                 && forallb (fun synset => nonempty (instance_hypernyms synset))
                            (wn (lower word)))).
Proof.
  rewrite is_valid_word_unfold, isalpha_lower.
  destruct word as [| c rest]; [reflexivity |].
  cbn [lower]. rewrite char_lower_not_upper. cbn [negb].
  now rewrite andb_true_r.
Qed.

Lemma valid_word_isalpha (word : string) :
  is_valid_word wn word = Ok true -> isalpha word = true.
Proof.
  rewrite is_valid_word_unfold. intros H. injection H as H.
  now destruct (isalpha word).
Qed.

Variables min_length max_length : Z.

(** A word the first loop keeps: its length is in the range and it is a valid
    word. *)
Local Abbreviation kept w :=
  ((Z.le min_length (Z.of_nat (String.length w))
    /\ Z.le (Z.of_nat (String.length w)) max_length)
   /\ is_valid_word wn w = Ok true).

Lemma add_lemma_spec (all_nouns : list string) (lemma_name : string) :
  exists all_nouns',
    add_lemma wn min_length max_length all_nouns lemma_name = Ok all_nouns'
    /\ (NoDup all_nouns -> NoDup all_nouns')
    /\ forall w, In w all_nouns'
                 <-> In w all_nouns \/ (w = lower lemma_name /\ kept w).
Proof.
  unfold add_lemma.
  set (word := replace_char "_" " " lemma_name).
  assert (A : isalpha (lower lemma_name) = true ->
              word = lemma_name
              /\ contains word " " = false /\ contains word "-" = false).
  { rewrite isalpha_lower. intros H. apply isalpha_all_alpha in H.
    destruct (all_alpha_no_separator lemma_name H) as (H1 & H2 & H3).
    subst word. rewrite H3. auto. }
  assert (B : isalpha (lower word) = true -> word = lemma_name).
  { rewrite isalpha_lower. intros H. apply isalpha_all_alpha in H.
    now apply all_alpha_replaced. }
  destruct (negb (contains word " ") && negb (contains word "-")) eqn:T;
    [destruct ((min_length <=? Z.of_nat (String.length (lower word)))%Z
               && (Z.of_nat (String.length (lower word)) <=? max_length)%Z)
       eqn:R;
     [destruct (is_valid_word wn (lower word)) as [[|] |] eqn:V |] |];
    cbn [bind].
  - (* the word is added *)
    exists (set_add (lower word) all_nouns). split; [reflexivity |].
    split; [apply set_add_NoDup |].
    assert (E : word = lemma_name)
      by (apply B; now apply valid_word_isalpha).
    rewrite E in *. intros w. rewrite set_add_In.
    apply andb_true_iff in R. destruct R as (R1 & R2).
    apply Z.leb_le in R1, R2.
    split; [| tauto].
    intros [H | ->]; [now left | right]. auto.
  - exists all_nouns. split; [reflexivity |]. split; [auto |].
    intros w. split; [auto |]. intros [H | (-> & _ & V')]; [exact H |].
    destruct (A (valid_word_isalpha _ V')) as (E & _). congruence.
  - rewrite is_valid_word_unfold in V. discriminate V.
  - exists all_nouns. split; [reflexivity |]. split; [auto |].
    intros w. split; [auto |]. intros [H | (-> & (R1 & R2) & V')]; [exact H |].
    destruct (A (valid_word_isalpha _ V')) as (E & _). rewrite E in R.
    apply Z.leb_le in R1, R2. rewrite R1, R2 in R. discriminate R.
  - exists all_nouns. split; [reflexivity |]. split; [auto |].
    intros w. split; [auto |]. intros [H | (-> & _ & V')]; [exact H |].
    destruct (A (valid_word_isalpha _ V')) as (_ & E1 & E2).
    rewrite E1, E2 in T. discriminate T.
Qed.

Lemma lemmas_loop_spec (lemmas all_nouns : list string) :
  exists all_nouns',
    lemmas_loop wn min_length max_length all_nouns lemmas = Ok all_nouns'
    /\ (NoDup all_nouns -> NoDup all_nouns')
    /\ forall w, In w all_nouns'
                 <-> In w all_nouns
                     \/ (exists lemma_name,
                            In lemma_name lemmas
                            /\ w = lower lemma_name /\ kept w).
Proof.
  revert all_nouns.
  induction lemmas as [| lemma_name rest IH]; intros all_nouns;
    cbn [lemmas_loop].
  - exists all_nouns. split; [reflexivity |]. split; [auto |].
    intros w. split; [auto |]. now intros [H | (? & [] & _)].
  - destruct (add_lemma_spec all_nouns lemma_name) as (s1 & E1 & N1 & I1).
    rewrite E1. cbn [bind].
    destruct (IH s1) as (s2 & E2 & N2 & I2).
    exists s2. split; [exact E2 |]. split; [auto |].
    intros w. rewrite I2, I1. split.
    + intros [[H | H] | (n & Hn & H)]; auto.
      * right. exists lemma_name. split; [now left | exact H].
      * right. exists n. split; [now right | exact H].
    + intros [H | (n & [<- | Hn] & H)]; auto.
      right. now exists n.
Qed.

Lemma all_synsets_loop_spec (synsets : list (list string))
      (all_nouns : list string) :
  exists all_nouns',
    all_synsets_loop wn min_length max_length all_nouns synsets
    = Ok all_nouns'
    /\ (NoDup all_nouns -> NoDup all_nouns')
    /\ forall w, In w all_nouns'
                 <-> In w all_nouns
                     \/ (exists lemmas lemma_name,
                            In lemmas synsets /\ In lemma_name lemmas
                            /\ w = lower lemma_name /\ kept w).
Proof.
  revert all_nouns.
  induction synsets as [| lemmas rest IH]; intros all_nouns;
    cbn [all_synsets_loop].
  - exists all_nouns. split; [reflexivity |]. split; [auto |].
    intros w. split; [auto |]. now intros [H | (? & ? & [] & _)].
  - destruct (lemmas_loop_spec lemmas all_nouns) as (s1 & E1 & N1 & I1).
    rewrite E1. cbn [bind].
    destruct (IH s1) as (s2 & E2 & N2 & I2).
    exists s2. split; [exact E2 |]. split; [auto |].
    intros w. rewrite I2, I1. split.
    + intros [[H | (n & Hn & H)] | (l & n & Hl & H)]; auto.
      * right. exists lemmas, n. split; [now left | auto].
      * right. exists l, n. split; [now right | exact H].
    + intros [H | (l & n & [<- | Hl] & Hn & H)]; auto.
      * left. right. now exists n.
      * right. now exists l, n.
Qed.

(** On a list without repetitions the second loop is a [filter]. *)
Lemma concrete_loop_filter (words concrete_nouns : list string) :
  NoDup (concrete_nouns ++ words) ->
  concrete_loop wn words concrete_nouns
  = concrete_nouns ++ filter (is_concrete_noun wn) words.
Proof.
  revert concrete_nouns.
  induction words as [| word rest IH]; intros acc Hn;
    cbn [concrete_loop filter].
  - now rewrite app_nil_r.
  - assert (Hn' : NoDup ((acc ++ [word]) ++ rest))
      by now rewrite <- app_assoc.
    destruct (is_concrete_noun wn word).
    + assert (E : set_add word acc = acc ++ [word]).
      { unfold set_add.
        assert (X : str_in word acc = false); [| now rewrite X].
        apply str_in_not_In. intros Hin.
        apply NoDup_remove_2 in Hn. apply Hn, in_or_app. now left. }
      rewrite E, (IH _ Hn'), <- app_assoc. reflexivity.
    + apply IH. apply NoDup_remove_1 in Hn. exact Hn.
Qed.

End NounListFacts.

Section NounListProperties.

Variable wn : string -> list Synset.
Variable all_synsets : list (list string).

(** What [get_concrete_nouns] computes: the sorted valid nouns with the ones
    that are not concrete taken out.  The set [concrete_nouns] and the last
    [sorted] change nothing. *)
Lemma get_concrete_nouns_unfold (min_length max_length : Z) :
  exists all_nouns,
    all_synsets_loop wn min_length max_length [] all_synsets = Ok all_nouns
    /\ NoDup all_nouns
    /\ get_concrete_nouns wn all_synsets min_length max_length
       = Ok (filter (is_concrete_noun wn) (sorted all_nouns)).
Proof.
  destruct (all_synsets_loop_spec wn min_length max_length all_synsets [])
    as (all_nouns & E & N & _).
  exists all_nouns. split; [exact E |].
  specialize (N (NoDup_nil _)). split; [exact N |].
  unfold get_concrete_nouns. rewrite E. cbn [bind].
  assert (S : StronglySorted str_lt (sorted all_nouns))
    by now apply sorted_strict.
  rewrite concrete_loop_filter by (cbn [app]; now apply strict_NoDup).
  cbn [app]. f_equal. apply sorted_fixed. now apply filter_strict.
Qed.

(** The words of the result, one by one *)
Lemma get_concrete_nouns_In (min_length max_length : Z) :
  exists nouns,
    get_concrete_nouns wn all_synsets min_length max_length = Ok nouns
    /\ forall w,
        In w nouns
        <-> (exists lemmas lemma_name,
                In lemmas all_synsets /\ In lemma_name lemmas
                /\ w = lower lemma_name)
            /\ (min_length <= Z.of_nat (String.length w) <= max_length)%Z
            /\ is_valid_word wn w = Ok true
            /\ is_concrete_noun wn w = true.
Proof.
  destruct (get_concrete_nouns_unfold min_length max_length)
    as (all_nouns & E & _ & G).
  destruct (all_synsets_loop_spec wn min_length max_length all_synsets [])
    as (all_nouns' & E' & _ & I).
  rewrite E in E'. injection E' as <-.
  eexists. split; [exact G |].
  intros w. rewrite filter_In.
  assert (P : In w (sorted all_nouns) <-> In w all_nouns).
  { split; apply Permutation_in;
      [| symmetry]; apply sorted_Permutation. }
  rewrite P, I. cbn [In]. split.
  - intros ([[] | (l & n & Hl & Hn & -> & R & V)] & C).
    split; [now exists l, n |]. auto.
  - intros ((l & n & Hl & Hn & ->) & R & V & C).
    split; [| exact C]. right. exists l, n. auto.
Qed.

(** X1: [get_concrete_nouns] never raises, and a word is in its result
    exactly when it is the lower-case form of a lemma name of some synset,
    its length is in the range, [is_valid_word] accepts it and
    [is_concrete_noun] does. *)
Theorem get_concrete_nouns_members (min_length max_length : Z) :
  exists nouns,
    get_concrete_nouns wn all_synsets min_length max_length = Ok nouns
    /\ forall w,
        In w nouns
        <-> (exists lemmas lemma_name,
                In lemmas all_synsets /\ In lemma_name lemmas
                /\ w = lower lemma_name)
            /\ (min_length <= Z.of_nat (String.length w) <= max_length)%Z
            /\ is_valid_word wn w = Ok true
            /\ is_concrete_noun wn w = true.
Proof.
  destruct (get_concrete_nouns_In min_length max_length) as (nouns & G & M).
  exists nouns. split; [exact G |].
  intros w. split; intros H.
  - now apply M.
  - now apply M.
Qed.

(** X2: the result of [get_concrete_nouns] is strictly ascending in the order
    of [str]: every word is smaller than all the words after it, so no word
    is listed twice. *)
Theorem get_concrete_nouns_ascending (min_length max_length : Z) :
  exists nouns,
    get_concrete_nouns wn all_synsets min_length max_length = Ok nouns
    /\ StronglySorted str_lt nouns
    /\ NoDup nouns.
Proof.
  destruct (get_concrete_nouns_unfold min_length max_length)
    as (all_nouns & _ & N & G).
  eexists. split; [exact G |].
  assert (S : StronglySorted str_lt
                (filter (is_concrete_noun wn) (sorted all_nouns)))
    by now apply filter_strict, sorted_strict.
  split; [exact S | now apply strict_NoDup].
Qed.

(** X3: every word [get_concrete_nouns] returns is a lower-case alphabetic
    token: it is not empty, all its characters are letters, none is
    upper-case, and it has no space, hyphen or underscore. *)
Theorem get_concrete_nouns_tokens (min_length max_length : Z) :
  exists nouns,
    get_concrete_nouns wn all_synsets min_length max_length = Ok nouns
    /\ forall w, In w nouns ->
         lowercase_token w = true
         /\ lower w = w
         /\ contains w " " = false
         /\ contains w "-" = false
         /\ contains w "_" = false.
Proof.
  destruct (get_concrete_nouns_In min_length max_length)
    as (nouns & G & M).
  exists nouns. split; [exact G |].
  intros w Hw. apply M in Hw.
  destruct Hw as ((l & n & _ & _ & ->) & _ & V & _).
  apply valid_word_isalpha in V.
  assert (A : all_alpha (lower n) = true) by now apply isalpha_all_alpha.
  destruct (all_alpha_no_separator _ A) as (H1 & H2 & H3).
  unfold lowercase_token. rewrite V, no_upper_lower, lower_idem.
  repeat split; try assumption.
  clear - A. induction (lower n) as [| c s IH]; [reflexivity |].
  rewrite contains_char_cons. cbn [all_alpha] in A.
  apply andb_true_iff in A. destruct A as (Hc & Hs).
  destruct (char_alpha_no_separator c Hc) as (_ & _ & E & _).
  now rewrite E, IH.
Qed.

(** X4: widening the length range only adds words: a word returned for a
    range is returned for every range that contains it. *)
Theorem get_concrete_nouns_range (min1 max1 min2 max2 : Z) :
  (min2 <= min1)%Z -> (max1 <= max2)%Z ->
  exists nouns1 nouns2,
    get_concrete_nouns wn all_synsets min1 max1 = Ok nouns1
    /\ get_concrete_nouns wn all_synsets min2 max2 = Ok nouns2
    /\ incl nouns1 nouns2.
Proof.
  intros Hmin Hmax.
  destruct (get_concrete_nouns_In min1 max1) as (n1 & G1 & M1).
  destruct (get_concrete_nouns_In min2 max2) as (n2 & G2 & M2).
  exists n1, n2. split; [exact G1 |]. split; [exact G2 |].
  intros w Hw. apply M2. apply M1 in Hw.
  destruct Hw as (L & R & V & C). repeat split; try assumption; lia.
Qed.

(** X5: with an empty length range, or no synset at all, the result is the
    empty list, not an error. *)
Theorem get_concrete_nouns_empty (min_length max_length : Z) :
  (max_length < min_length)%Z \/ all_synsets = [] ->
  get_concrete_nouns wn all_synsets min_length max_length = Ok [].
Proof.
  intros H.
  destruct (get_concrete_nouns_In min_length max_length)
    as (nouns & G & M).
  rewrite G. f_equal. destruct nouns as [| w rest]; [reflexivity |].
  exfalso. destruct (proj1 (M w) (or_introl eq_refl))
    as ((l & n & Hl & _) & R & _).
  destruct H as [H | H]; [lia | now rewrite H in Hl].
Qed.

(** X6: for words over the code points below U+0100, the strings of this
    development: on a lower-cased word the upper-case test of [is_valid_word]
    never rejects.  [get_concrete_nouns] lower-cases every lemma name first, so a
    capitalised name is judged like its lower-case form: it is valid exactly
    when it is alphabetic and either has no noun sense or has one that is not
    a named instance. *)
Theorem valid_word_after_lower (word : string) :
  is_valid_word wn (lower word) = Ok true
  <-> isalpha word = true
      /\ (wn (lower word) = []
          \/ ~ Forall named_instance (wn (lower word))).
Proof.
  rewrite is_valid_word_lower, <- all_proper_Forall.
  destruct (isalpha word); cbn [andb];
    [| split; [discriminate | intros (H & _); discriminate]].
  destruct (wn (lower word)) as [| s ss]; cbn [nonempty andb].
  - split; [now auto | reflexivity].
  - destruct (forallb _ (s :: ss)); cbn [negb].
    + split; [discriminate |].
      intros (_ & [H | H]); [discriminate | now contradiction H].
    + split; [| reflexivity]. intros _. split; [reflexivity |].
      right. discriminate.
Qed.

End NounListProperties.

(** ** Reading back the files the scripts write *)

Section Scanning.

Lemma prefix_nil (s : string) : String.prefix "" s = true.
Proof. now destruct s. Qed.

Lemma prefix_cons (a b : ascii) (p s : string) :
  String.prefix (String a p) (String b s) = Ascii.eqb a b && String.prefix p s.
Proof.
  cbn [String.prefix]. destruct (Ascii.ascii_dec a b) as [-> | N].
  - now rewrite Ascii.eqb_refl.
  - apply Ascii.eqb_neq in N. now rewrite N.
Qed.

Lemma prefix_app (a b : string) : String.prefix a (a ++ b) = true.
Proof.
  induction a as [| c a IH]; cbn [append]; [apply prefix_nil |].
  now rewrite prefix_cons, Ascii.eqb_refl.
Qed.

Lemma drop_app (a b : string) : drop (String.length a) (a ++ b) = b.
Proof.
  induction a as [| c a IH]; cbn [String.length append drop];
    [now destruct b | exact IH].
Qed.

Lemma after_first_unfold (marker s : string) :
  after_first marker s
  = if String.prefix marker s then Some (drop (String.length marker) s)
    else match s with
         | EmptyString => None
         | String _ s' => after_first marker s'
         end.
Proof. now destruct s. Qed.

Lemma lazy_until_unfold (closing s : string) :
  lazy_until closing s
  = if String.prefix closing s then Some EmptyString
    else match s with
         | EmptyString => None
         | String c s' =>
             match lazy_until closing s' with
             | Some t => Some (String c t)
             | None => None
             end
         end.
Proof. now destruct s. Qed.

(** No place to start from: the text does not contain the marker. *)
Lemma after_first_None (marker s : string) :
  after_first marker s = None <-> contains s marker = false.
Proof.
  induction s as [| c s IH]; rewrite after_first_unfold; cbn [contains].
  - destruct (String.prefix marker ""); cbn [orb]; split; intros; congruence.
  - destruct (String.prefix marker (String c s)); cbn [orb];
      [split; intros; congruence | exact IH].
Qed.

(** What the lazy star takes is followed by the closing. *)
Lemma lazy_until_Some (closing s t : string) :
  lazy_until closing s = Some t ->
  exists rest, s = (t ++ closing ++ rest)%string.
Proof.
  revert t. induction s as [| c s IH]; intros t; rewrite lazy_until_unfold.
  - destruct (String.prefix closing "") eqn:P; [| discriminate].
    intros [= <-]. apply prefix_spec in P. exact P.
  - destruct (String.prefix closing (String c s)) eqn:P.
    + intros [= <-]. apply prefix_spec in P. exact P.
    + destruct (lazy_until closing s) as [t' |]; [| discriminate].
      intros [= <-]. destruct (IH t' eq_refl) as (rest & ->).
      now exists rest.
Qed.

Lemma lazy_until_None (closing s : string) :
  lazy_until closing s = None <-> contains s closing = false.
Proof.
  induction s as [| c s IH]; rewrite lazy_until_unfold; cbn [contains].
  - destruct (String.prefix closing ""); cbn [orb]; split; intros;
      congruence.
  - destruct (String.prefix closing (String c s)); cbn [orb];
      [split; intros; congruence |].
    rewrite <- IH. destruct (lazy_until closing s); split; congruence.
Qed.

Lemma scan_close_last (st : bool) (c : ascii) (s : string) :
  snd (scan_close st (String c s)) = snd (scan_close (Ascii.eqb c "]") s).
Proof.
  cbn [scan_close]. now destruct (scan_close (Ascii.eqb c "]") s).
Qed.

Lemma scan_close_found (st : bool) (c : ascii) (s : string) :
  fst (scan_close st (String c s))
  = st && Ascii.eqb c ";" || fst (scan_close (Ascii.eqb c "]") s).
Proof.
  cbn [scan_close]. now destruct (scan_close (Ascii.eqb c "]") s).
Qed.

Lemma scan_close_app (st : bool) (a b : string) :
  scan_close st (a ++ b)
  = (fst (scan_close st a) || fst (scan_close (snd (scan_close st a)) b),
     snd (scan_close (snd (scan_close st a)) b)).
Proof.
  revert st. induction a as [| c a IH]; intros st; cbn [append].
  - cbn [scan_close fst snd orb]. now destruct (scan_close st b).
  - rewrite scan_close_found, scan_close_last.
    apply injective_projections; cbn [fst snd].
    + rewrite scan_close_found, IH. cbn [fst]. now rewrite orb_assoc.
    + rewrite scan_close_last, IH. reflexivity.
Qed.

Lemma scan_close_true (s : string) :
  fst (scan_close true s)
  = String.prefix ";" s || fst (scan_close false s).
Proof.
  destruct s as [| c s]; [reflexivity |].
  rewrite !scan_close_found, prefix_cons, prefix_nil, andb_true_r.
  cbn [andb orb]. now rewrite Ascii.eqb_sym.
Qed.

(** The scan finds the closing exactly when the text contains it. *)
Lemma contains_scan_close (s : string) :
  contains s "];" = fst (scan_close false s).
Proof.
  induction s as [| c s IH]; [reflexivity |].
  cbn [contains]. rewrite scan_close_found, prefix_cons, IH.
  cbn [andb orb]. rewrite (Ascii.eqb_sym "]" c).
  destruct (Ascii.eqb c "]"); cbn [andb orb];
    [now rewrite scan_close_true | reflexivity].
Qed.

(** The lazy star takes [s] when no closing starts inside [s]. *)
Lemma lazy_until_exact (s rest : string) :
  contains (s ++ "]") "];" = false ->
  lazy_until "];" (s ++ "];" ++ rest) = Some s.
Proof.
  induction s as [| c s IH]; intros H; rewrite lazy_until_unfold.
  - cbn [append]. now rewrite !prefix_cons, prefix_nil.
  - cbn [append contains] in H |- *.
    apply orb_false_iff in H. destruct H as (H1 & H2).
    assert (P : String.prefix "];" (String c (s ++ "];" ++ rest)) = false).
    { rewrite prefix_cons in H1 |- *.
      destruct (Ascii.eqb "]" c); [| reflexivity].
      cbn [andb] in H1 |- *.
      destruct s as [| d s]; cbn [append] in H1 |- *;
        [reflexivity |].
      rewrite prefix_cons, prefix_nil in H1 |- *. exact H1. }
    cbn [append] in P, IH |- *. rewrite P, (IH H2). reflexivity.
Qed.

(** What the lazy star takes has no closing inside. *)
Lemma lazy_until_minimal (s t : string) :
  lazy_until "];" s = Some t -> contains (t ++ "]") "];" = false.
Proof.
  revert t. induction s as [| c s IH]; intros t; rewrite lazy_until_unfold.
  - destruct (String.prefix "];" ""); [| discriminate].
    now intros [= <-].
  - destruct (String.prefix "];" (String c s)) eqn:P.
    + now intros [= <-].
    + destruct (lazy_until "];" s) as [t' |] eqn:L; [| discriminate].
      intros [= <-]. cbn [append contains].
      rewrite (IH t' eq_refl), orb_false_r.
      destruct (lazy_until_Some _ _ _ L) as (rest & ->).
      rewrite prefix_cons in P |- *.
      destruct (Ascii.eqb "]" c); [| reflexivity].
      cbn [andb] in P |- *.
      destruct t' as [| d t']; cbn [append] in P |- *;
        [reflexivity |].
      rewrite prefix_cons, prefix_nil in P |- *. exact P.
Qed.

End Scanning.

Section JsonText.

Lemma string_app_assoc (a b c : string) :
  ((a ++ b) ++ c = a ++ (b ++ c))%string.
Proof.
  induction a as [| x a IH]; cbn [append]; [reflexivity | now rewrite IH].
Qed.

(** An escape has a closing bracket or a semicolon only where the character
    it stands for is one. *)
Lemma json_escape_char_scan (st : bool) (c : ascii) :
  scan_close st (json_escape_char c) = scan_close st (String c "").
Proof.
  destruct st, c as [[] [] [] [] [] [] [] []]; reflexivity.
Qed.

Lemma json_escape_scan (st : bool) (s : string) :
  scan_close st (json_escape s) = scan_close st s.
Proof.
  revert st. induction s as [| c s IH]; intros st; [reflexivity |].
  cbn [json_escape]. change (String c s) with (String c "" ++ s)%string.
  rewrite !scan_close_app, json_escape_char_scan, !IH. reflexivity.
Qed.

Lemma json_string_scan (st : bool) (w : string) :
  scan_close st (json_string w) = (contains w "];", false).
Proof.
  unfold json_string.
  apply injective_projections; cbn [fst snd].
  - rewrite scan_close_found, scan_close_app, json_escape_scan.
    change (Ascii.eqb quote "]") with false.
    change (Ascii.eqb quote ";") with false.
    rewrite andb_false_r, <- contains_scan_close. cbn [orb].
    rewrite scan_close_found. cbn [scan_close fst].
    change (Ascii.eqb quote ";") with false.
    now rewrite andb_false_r, !orb_false_r.
  - rewrite scan_close_last, scan_close_app. cbn [snd].
    rewrite scan_close_last. reflexivity.
Qed.

Lemma json_items_scan (st : bool) (xs : list string) :
  xs <> [] ->
  scan_close st (String.concat ("," ++ nl ++ "  ") (map json_string xs))
  = (existsb (fun w => contains w "];") xs, false).
Proof.
  intros Hne. revert st.
  induction xs as [| x xs IH]; intros st; [contradiction |].
  destruct xs as [| y xs].
  - cbn [map String.concat existsb]. rewrite json_string_scan.
    now rewrite orb_false_r.
  - change (String.concat ("," ++ nl ++ "  ") (map json_string (x :: y :: xs)))
      with (json_string x
            ++ ("," ++ nl ++ "  ")
            ++ String.concat ("," ++ nl ++ "  ")
                 (map json_string (y :: xs)))%string.
    rewrite scan_close_app, json_string_scan. cbn [fst snd].
    rewrite scan_close_app.
    change (scan_close false ("," ++ nl ++ "  ")) with (false, false).
    cbn [fst snd orb]. rewrite IH by discriminate.
    reflexivity.
Qed.

(** The text [json.dumps] writes is a pair of brackets around a body, and a
    closing bracket followed by a semicolon can only come from a word. *)
Lemma json_dumps_body (xs : list string) :
  exists body,
    json_dumps xs = ("[" ++ body ++ "]")%string
    /\ contains (body ++ "]") "];" = existsb (fun w => contains w "];") xs.
Proof.
  destruct xs as [| x xs].
  - exists "". split; reflexivity.
  - exists (nl ++ "  "
            ++ String.concat ("," ++ nl ++ "  ") (map json_string (x :: xs))
            ++ nl)%string.
    split.
    + unfold json_dumps. now rewrite !string_app_assoc.
    + rewrite contains_scan_close, !string_app_assoc.
      rewrite scan_close_app.
      change (scan_close false nl) with (false, false). cbn [fst snd orb].
      rewrite scan_close_app.
      change (scan_close false "  ") with (false, false). cbn [fst snd orb].
      rewrite scan_close_app, json_items_scan by discriminate.
      cbn [fst snd]. now rewrite orb_false_r.
Qed.

Lemma existsb_false_Forall {A : Type} (p : A -> bool) (l : list A) :
  existsb p l = false <-> Forall (fun x => p x = false) l.
Proof.
  rewrite Forall_forall. apply existsb_false_iff.
Qed.

(** The search from the place where the marker stands *)
Lemma re_search_at_marker (rest : string) :
  re_search_word_list ("const WORD_LIST = [" ++ rest)
  = match lazy_until "];" rest with
    | Some inner => Some ("[" ++ inner ++ "]")%string
    | None => None
    end.
Proof.
  unfold re_search_word_list.
  rewrite after_first_unfold, prefix_app, drop_app. reflexivity.
Qed.

(** The search finds the list as it was written exactly when no closing
    bracket followed by a semicolon stands inside it. *)
Lemma re_search_written (body tail : string) :
  re_search_word_list
    ("const WORD_LIST = " ++ ("[" ++ body ++ "]") ++ ";" ++ tail)
  = Some ("[" ++ body ++ "]")%string
  <-> contains (body ++ "]") "];" = false.
Proof.
  assert (E : ("const WORD_LIST = " ++ ("[" ++ body ++ "]") ++ ";" ++ tail
               = "const WORD_LIST = [" ++ body ++ "];" ++ tail)%string).
  { cbn [append]. now rewrite string_app_assoc. }
  rewrite E, re_search_at_marker. split.
  - destruct (lazy_until "];" (body ++ "];" ++ tail)) as [inner |] eqn:L;
      [| discriminate].
    intros [= H]. apply lazy_until_minimal in L. cbn [append] in H.
    now rewrite <- H.
  - intros H. now rewrite (lazy_until_exact body tail H).
Qed.

End JsonText.

Section ReadingBack.

Lemma after_first_Some (marker s rest : string) :
  after_first marker s = Some rest ->
  exists pre, s = (pre ++ marker ++ rest)%string.
Proof.
  induction s as [| c s IH]; rewrite after_first_unfold.
  - destruct (String.prefix marker "") eqn:P; [| discriminate].
    intros [= <-]. apply prefix_spec in P. destruct P as (b & E).
    exists "". cbn [append]. destruct marker; [| discriminate E].
    now destruct b.
  - destruct (String.prefix marker (String c s)) eqn:P.
    + intros [= <-]. apply prefix_spec in P. destruct P as (b & E).
      exists "". cbn [append]. rewrite E. now rewrite drop_app.
    + intros H. destruct (IH H) as (pre & ->). now exists (String c pre).
Qed.

Lemma contains_app_r (a b sub : string) :
  contains (a ++ b) sub = false -> contains b sub = false.
Proof.
  intros H. destruct (contains b sub) eqn:E; [| reflexivity].
  apply contains_spec in E. destruct E as (x & y & ->).
  assert (T : contains (a ++ x ++ sub ++ y) sub = true).
  { apply contains_spec. exists (a ++ x)%string, y.
    now rewrite string_app_assoc. }
  congruence.
Qed.

Lemma prefix_app_cases (m p rest : string) :
  String.prefix m (p ++ rest) = true ->
  String.prefix m p = true \/ String.prefix p m = true.
Proof.
  revert p. induction m as [| a m IH]; intros p H.
  - left. apply prefix_nil.
  - destruct p as [| b p]; [right; reflexivity |].
    cbn [append] in H. rewrite prefix_cons in H |- *.
    apply andb_true_iff in H. destruct H as (E & H).
    rewrite prefix_cons, (Ascii.eqb_sym b a), E. cbn [andb].
    now apply IH.
Qed.

(** A text that gives the marker no place to start can be skipped. *)
Lemma after_first_skip (marker pre rest : string) :
  no_start marker pre = true ->
  after_first marker (pre ++ rest) = after_first marker rest.
Proof.
  induction pre as [| c pre IH]; [reflexivity |].
  cbn [no_start]. intros H. apply andb_true_iff in H.
  destruct H as (H1 & H2). apply negb_true_iff, orb_false_iff in H1.
  destruct H1 as (P1 & P2).
  change (String c pre ++ rest)%string with (String c (pre ++ rest)).
  rewrite after_first_unfold.
  destruct (String.prefix marker (String c (pre ++ rest))) eqn:P;
    [| now apply IH].
  apply (prefix_app_cases marker (String c pre) rest) in P.
  destruct P; congruence.
Qed.

Lemma re_search_skip (pre rest : string) :
  no_start "const WORD_LIST = [" pre = true ->
  re_search_word_list (pre ++ rest) = re_search_word_list rest.
Proof.
  intros H. unfold re_search_word_list. now rewrite after_first_skip.
Qed.

Lemma digits_no_start (n : nat) :
  no_start "const WORD_LIST = [" (str_of_nat n) = true.
Proof.
  unfold str_of_nat.
  induction (Nat.to_uint n) as [| u IH | u IH | u IH | u IH | u IH | u IH
                                | u IH | u IH | u IH | u IH];
    cbn [NilEmpty.string_of_uint no_start]; [reflexivity | ..];
    rewrite IH, andb_true_r; reflexivity.
Qed.


End ReadingBack.

Section FileProperties.

Variable Json : Type.
Variable json_loads : string -> Json.
Variable empty_list : Json.

(** X7: a file that does not contain the text [const WORD_LIST = [], or
    contains no closing bracket followed by a semicolon, loads as the empty
    list: the search finds nothing and [json.loads] has no part in the
    result. *)
Theorem load_without_list (content : string) :
  contains content "const WORD_LIST = [" = false
  \/ contains content "];" = false ->
  re_search_word_list content = None
  /\ load_words_from_js Json json_loads empty_list content = empty_list.
Proof.
  intros H.
  assert (N : re_search_word_list content = None).
  { unfold re_search_word_list.
    destruct (after_first "const WORD_LIST = [" content) as [rest |] eqn:A;
      [| reflexivity].
    destruct H as [H | H].
    - apply after_first_None in H. congruence.
    - apply after_first_Some in A. destruct A as (pre & ->).
      rewrite <- string_app_assoc in H. apply contains_app_r in H.
      apply lazy_until_None in H. now rewrite H. }
  split; [exact N |]. unfold load_words_from_js. now rewrite N.
Qed.

Lemma written_list_read_back (xs : list string) (tail : string) :
  re_search_word_list ("const WORD_LIST = " ++ json_dumps xs ++ ";" ++ tail)
  = Some (json_dumps xs)
  <-> Forall (fun w => contains w "];" = false) xs.
Proof.
  destruct (json_dumps_body xs) as (body & E & C).
  rewrite E, re_search_written, C. apply existsb_false_Forall.
Qed.

(** X8: [load_words_from_js] finds in the [words.js] that
    [generate_nouns.py] writes the very text [json.dumps] wrote for the noun
    list, exactly when no noun contains a closing bracket followed by a
    semicolon; it then returns what [json.loads] makes of that text. *)
Theorem generated_words_read_back (nouns : list string) :
  (re_search_word_list (GenerateNounsMain.js_content nouns)
   = Some (json_dumps nouns)
   <-> Forall (fun w => contains w "];" = false) nouns)
  /\ (Forall (fun w => contains w "];" = false) nouns ->
      load_words_from_js Json json_loads empty_list
        (GenerateNounsMain.js_content nouns)
      = json_loads (json_dumps nouns)).
Proof.
  assert (I := written_list_read_back nouns
                 (nl ++ "const WORD_SET = new Set(WORD_LIST);" ++ nl)).
  split; [exact I |].
  intros H. apply I in H. unfold load_words_from_js.
  unfold GenerateNounsMain.js_content. now rewrite H.
Qed.


(** X10: in the [words_new.js] that [filter_words.py] writes,
    [load_words_from_js] finds the text of the filtered list, not of the
    expanded list that follows it, exactly when no kept word contains a
    closing bracket followed by a semicolon. *)
Theorem words_new_js_read_back (words : list string) :
  (re_search_word_list (words_new_js words)
   = Some (json_dumps (fst (main words)))
   <-> Forall (fun w => contains w "];" = false) (fst (main words)))
  /\ (Forall (fun w => contains w "];" = false) (fst (main words)) ->
      load_words_from_js Json json_loads empty_list (words_new_js words)
      = json_loads (json_dumps (fst (main words)))).
Proof.
  assert (I : re_search_word_list (words_new_js words)
              = Some (json_dumps (fst (main words)))
              <-> Forall (fun w => contains w "];" = false)
                    (fst (main words))).
  { unfold words_new_js, js_content.
    do 6 (rewrite re_search_skip by (vm_compute; reflexivity)).
    rewrite re_search_skip by apply digits_no_start.
    do 2 (rewrite re_search_skip by (vm_compute; reflexivity)).
    apply written_list_read_back. }
  split; [exact I |].
  intros H. apply I in H. unfold load_words_from_js. now rewrite H.
Qed.

End FileProperties.

(** ** More on the heuristic classifier and the loop of [main] *)

Section HeuristicMore.

(** X11: the heuristic classifier looks at a word only through its
    lower-case form and its length: two words with the same lower-case form
    and the same length get the same answer from [is_profane],
    [is_abstract_noun] and [should_filter]. *)
Theorem classifier_ignores_case (w1 w2 : string) :
  lower w1 = lower w2 ->
  String.length w1 = String.length w2 ->
  is_profane w1 = is_profane w2
  /\ is_abstract_noun w1 = is_abstract_noun w2
  /\ should_filter w1 = should_filter w2.
Proof.
  intros E L.
  assert (P : is_profane w1 = is_profane w2)
    by (unfold is_profane; now rewrite E).
  assert (A : is_abstract_noun w1 = is_abstract_noun w2)
    by (rewrite !is_abstract_noun_unfold; now rewrite E, L).
  split; [exact P |]. split; [exact A |].
  now rewrite !should_filter_unfold, P, A.
Qed.

Lemma long_exception_is_television (w : string) :
  7 < String.length w ->
  str_in w suffix_exceptions = String.eqb w "television".
Proof.
  intros L. destruct (String.eqb w "television") eqn:E.
  - apply String.eqb_eq in E. now subst.
  - apply str_in_not_In. intros H. apply String.eqb_neq in E.
    cbn [suffix_exceptions In] in H.
    repeat (destruct H as [<- | H];
            [first [ now contradiction E | cbn in L; lia ] |]).
    contradiction.
Qed.

(** X12: of the words in the exception list of the suffix rule only
    "television" is long enough for the rule, so the list changes the answer
    for that word alone: [is_abstract_noun] answers as the two curated sets
    and the suffix rule say, with "television" as the one exception. *)
Theorem exceptions_only_television (word : string) :
  is_abstract_noun word
  = str_in (lower word) ABSTRACT_WORDS
    || str_in (lower word) ABSTRACT_KEYWORDS
    || ((7 <? String.length word)
        && existsb (endswith (lower word)) ABSTRACT_SUFFIXES
        && negb (String.eqb (lower word) "television")).
Proof.
  rewrite is_abstract_noun_unfold, suffix_loop_spec. f_equal.
  destruct (7 <? String.length word) eqn:L; [| reflexivity].
  apply Nat.ltb_lt in L. rewrite <- (lower_length word) in L.
  now rewrite (long_exception_is_television _ L).
Qed.

Lemma endswith_trans (w a b : string) :
  endswith w a = true -> endswith a b = true -> endswith w b = true.
Proof.
  rewrite !endswith_spec. intros (p & ->) (q & ->).
  exists (p ++ q)%string. now rewrite string_app_assoc.
Qed.

(** X13: four entries of [ABSTRACT_SUFFIXES] never decide anything: a word
    that ends with "ity", "ization", "isation" or "ery" also ends with "ty",
    "tion" or "ry", so the suffix loop answers the same without them. *)
Theorem redundant_suffixes (w : string) :
  suffix_loop w ABSTRACT_SUFFIXES
  = suffix_loop w
      [ "tion"; "sion"; "ment"; "ness"; "ty"; "ance"; "ence"; "ship";
        "hood"; "dom"; "ism"; "age"; "ry"; "cy" ].
Proof.
  rewrite !suffix_loop_spec. f_equal.
  apply eq_true_iff_eq. rewrite !existsb_exists. split.
  - intros (x & Hx & E). cbn [ABSTRACT_SUFFIXES In] in Hx.
    assert (T : forall a b, x = a -> endswith a b = true ->
                            endswith w b = true)
      by (intros a b -> H; now apply (endswith_trans w a b)).
    repeat (destruct Hx as [Hx | Hx];
            [ first
                [ exists x; split; [rewrite <- Hx; cbn; tauto | exact E]
                | exists "ty"; split;
                  [cbn; tauto | apply (T "ity"); [now symmetry | reflexivity]]
                | exists "tion"; split;
                  [cbn; tauto
                  | first [ apply (T "ization"); [now symmetry | reflexivity]
                          | apply (T "isation");
                            [now symmetry | reflexivity] ] ]
                | exists "ry"; split;
                  [cbn; tauto
                  | apply (T "ery"); [now symmetry | reflexivity] ] ] |]).
    contradiction.
  - intros (x & Hx & E). exists x. split; [| exact E].
    cbn [In] in Hx. cbn [ABSTRACT_SUFFIXES In].
    repeat (destruct Hx as [Hx | Hx]; [tauto |]). contradiction.
Qed.

(** X14: the loop of [main] works word by word: splitting a list that is
    two lists put together gives the two splits put together. *)
Theorem main_app (words1 words2 : list string) :
  main (words1 ++ words2)
  = (fst (main words1) ++ fst (main words2),
     snd (main words1) ++ snd (main words2)).
Proof.
  rewrite !main_filter. cbn [fst snd]. now rewrite !filter_app.
Qed.

(** X15: the kept list holds exactly the words of the input that are neither
    profane nor abstract, and the removed list exactly those that are
    profane or abstract. *)
Theorem main_kept_clean (words : list string) (w : string) :
  (In w (fst (main words))
   <-> In w words /\ is_profane w = false /\ is_abstract_noun w = false)
  /\ (In w (snd (main words))
      <-> In w words /\ (is_profane w = true \/ is_abstract_noun w = true)).
Proof.
  rewrite main_filter. cbn [fst snd]. rewrite !filter_In.
  rewrite should_filter_unfold.
  destruct (is_profane w), (is_abstract_noun w); cbn [orb negb];
    intuition congruence.
Qed.

End HeuristicMore.

(** ** More on the taxonomy-based classifier *)

Section TaxonomyMore.

Variable wn : string -> list Synset.

Lemma contains_trans (a b c : string) :
  contains a b = true -> contains b c = true -> contains a c = true.
Proof.
  rewrite !contains_spec. intros (p & q & ->) (r & t & ->).
  exists (p ++ r)%string, (t ++ q)%string.
  now rewrite !string_app_assoc.
Qed.

(** X16: the markers are looked for as pieces of text, not as words: a sense
    whose definition, in lower case, contains any text that contains a marker
    of [abstract_keywords] or [technical_keywords] is passed over, so "ion"
    excludes every definition with "depression", "region" or "portion" in
    it. *)
Theorem marker_inside_a_word (word : string) (sense : Synset)
        (fragment marker : string) :
  In marker (abstract_keywords ++ technical_keywords) ->
  contains fragment marker = true ->
  contains (lower (definition sense)) fragment = true ->
  sense_returns_true word sense = false.
Proof.
  intros Hm Hf Hd.
  assert (C : contains (lower (definition sense)) marker = true)
    by now apply (contains_trans _ fragment).
  destruct (sense_returns_true word sense) eqn:E; [| reflexivity].
  apply sense_returns_true_spec in E.
  destruct E as (_ & _ & A & T & _).
  apply in_app_or in Hm. destruct Hm as [Hm | Hm].
  - rewrite (A marker Hm) in C. discriminate C.
  - rewrite (T marker Hm) in C. discriminate C.
Qed.

(** X17: every word [get_concrete_nouns] returns has a noun sense that
    qualifies as a physical object and a noun sense that is not a named
    instance. *)
Theorem get_concrete_nouns_senses (all_synsets : list (list string))
        (min_length max_length : Z) :
  exists nouns,
    get_concrete_nouns wn all_synsets min_length max_length = Ok nouns
    /\ forall w, In w nouns ->
         (exists sense, In sense (wn w) /\ spec_sense_qualifies w sense)
         /\ (exists sense, In sense (wn w) /\ ~ named_instance sense).
Proof.
  destruct (get_concrete_nouns_In wn all_synsets min_length max_length)
    as (nouns & G & M).
  exists nouns. split; [exact G |].
  intros w Hw. apply M in Hw. destruct Hw as (_ & _ & V & C).
  rewrite is_concrete_noun_existsb in C. apply existsb_exists in C.
  destruct C as (s & Hs & Q). split.
  - exists s. split; [exact Hs | now apply sense_returns_true_spec].
  - rewrite is_valid_word_unfold in V. injection V as V.
    apply andb_true_iff in V. destruct V as (_ & V).
    apply negb_true_iff in V.
    destruct (wn w) as [| s0 ss] eqn:W; [contradiction |].
    cbn [nonempty andb] in V.
    assert (X : ~ Forall named_instance (s0 :: ss)).
    { intros F. apply all_proper_Forall in F. congruence. }
    apply Exists_Forall_neg in X.
    + apply Exists_exists in X. exact X.
    + intros x. unfold named_instance.
      destruct (instance_hypernyms x); [right | left]; congruence.
Qed.

End TaxonomyMore.

(** ** The added properties on the fixture *)

Section MoreOnFixture.

Import Fixture CorpusFixture.

Lemma fixture_nouns :
  get_concrete_nouns wn_synsets all_synsets 2 10 = Ok ["chair"].
Proof. vm_compute. reflexivity. Defined.

Lemma get_concrete_nouns_tokens_witness :
  exists nouns,
    get_concrete_nouns wn_synsets all_synsets 2 10 = Ok nouns
    /\ In "chair" nouns
    /\ lowercase_token "chair" = true
    /\ contains "chair" "_" = false.
Proof.
  destruct (get_concrete_nouns_tokens wn_synsets all_synsets 2 10)
    as (nouns & G & T).
  assert (I : In "chair" nouns).
  { pose proof fixture_nouns as E. rewrite G in E. injection E as ->.
    left. reflexivity. }
  exists nouns. split; [exact G |]. split; [exact I |].
  destruct (T "chair" I) as (A & _ & _ & _ & B). now split.
Defined.

Lemma get_concrete_nouns_range_witness :
  (1 <= 2)%Z /\ (5 <= 10)%Z
  /\ exists nouns1 nouns2,
       get_concrete_nouns wn_synsets all_synsets 2 5 = Ok nouns1
       /\ get_concrete_nouns wn_synsets all_synsets 1 10 = Ok nouns2
       /\ incl nouns1 nouns2.
Proof.
  assert (H1 : (1 <= 2)%Z) by lia.
  assert (H2 : (5 <= 10)%Z) by lia.
  split; [exact H1 |]. split; [exact H2 |].
  exact (get_concrete_nouns_range wn_synsets all_synsets 2 5 1 10 H1 H2).
Defined.

Lemma get_concrete_nouns_empty_witness :
  (3 < 5)%Z /\ get_concrete_nouns wn_synsets all_synsets 5 3 = Ok [].
Proof.
  assert (H : (3 < 5)%Z) by lia.
  split; [exact H |].
  exact (get_concrete_nouns_empty wn_synsets all_synsets 5 3 (or_introl H)).
Defined.

Lemma load_without_list_witness :
  contains "const WORD_SET = new Set(WORD_LIST);" "const WORD_LIST = ["
  = false
  /\ load_words_from_js string json_text "[]"
       "const WORD_SET = new Set(WORD_LIST);"
     = "[]".
Proof.
  assert (H : contains "const WORD_SET = new Set(WORD_LIST);"
                "const WORD_LIST = [" = false) by reflexivity.
  split; [exact H |].
  exact (proj2 (load_without_list string json_text "[]" _ (or_introl H))).
Defined.

Lemma generated_words_read_back_witness :
  Forall (fun w => contains w "];" = false) ["chair"; "table"]
  /\ load_words_from_js string json_text "[]"
       (GenerateNounsMain.js_content ["chair"; "table"])
     = json_dumps ["chair"; "table"].
Proof.
  assert (F : Forall (fun w => contains w "];" = false) ["chair"; "table"])
    by (repeat constructor).
  split; [exact F |].
  exact (proj2 (generated_words_read_back string json_text "[]"
                  ["chair"; "table"]) F).
Defined.

Lemma words_new_js_read_back_witness :
  Forall (fun w => contains w "];" = false)
    (fst (main ["chair"; "ability"; "table"]))
  /\ load_words_from_js string json_text "[]"
       (words_new_js ["chair"; "ability"; "table"])
     = json_dumps ["chair"; "table"].
Proof.
  assert (F : Forall (fun w => contains w "];" = false)
                (fst (main ["chair"; "ability"; "table"])))
    by (repeat constructor).
  split; [exact F |].
  exact (proj2 (words_new_js_read_back string json_text "[]"
                  ["chair"; "ability"; "table"]) F).
Defined.

Lemma classifier_ignores_case_witness :
  lower "Fucking" = lower "FUCKING"
  /\ String.length "Fucking" = String.length "FUCKING"
  /\ should_filter "Fucking" = should_filter "FUCKING".
Proof.
  assert (E : lower "Fucking" = lower "FUCKING") by reflexivity.
  assert (L : String.length "Fucking" = String.length "FUCKING")
    by reflexivity.
  split; [exact E |]. split; [exact L |].
  exact (proj2 (proj2 (classifier_ignores_case "Fucking" "FUCKING" E L))).
Defined.

Lemma marker_inside_a_word_witness :
  In "ion" (abstract_keywords ++ technical_keywords)
  /\ contains "depression" "ion" = true
  /\ contains (lower (definition valley)) "depression" = true
  /\ sense_returns_true "valley" valley = false
  /\ In "the process of" (abstract_keywords ++ technical_keywords)
  /\ contains (lower (definition souring)) "the process of" = true
  /\ sense_returns_true "souring" souring = false.
Proof.
  assert (M : In "ion" (abstract_keywords ++ technical_keywords))
    by (apply str_in_In; reflexivity).
  assert (F : contains "depression" "ion" = true) by reflexivity.
  assert (D : contains (lower (definition valley)) "depression" = true)
    by reflexivity.
  assert (M' : In "the process of" (abstract_keywords ++ technical_keywords))
    by (apply str_in_In; reflexivity).
  assert (F' : contains "the process of" "the process of" = true)
    by reflexivity.
  assert (D' : contains (lower (definition souring)) "the process of" = true)
    by reflexivity.
  split; [exact M |]. split; [exact F |]. split; [exact D |].
  split; [exact (marker_inside_a_word "valley" valley "depression" "ion"
                   M F D) |].
  split; [exact M' |]. split; [exact D' |].
  exact (marker_inside_a_word "souring" souring "the process of"
           "the process of" M' F' D').
Defined.

Lemma get_concrete_nouns_senses_witness :
  exists nouns,
    get_concrete_nouns wn_synsets all_synsets 2 10 = Ok nouns
    /\ In "chair" nouns
    /\ exists sense, In sense (wn_synsets "chair")
                     /\ spec_sense_qualifies "chair" sense.
Proof.
  destruct (get_concrete_nouns_senses wn_synsets all_synsets 2 10)
    as (nouns & G & T).
  assert (I : In "chair" nouns).
  { pose proof fixture_nouns as E. rewrite G in E. injection E as ->.
    left. reflexivity. }
  exists nouns. split; [exact G |]. split; [exact I |].
  exact (proj1 (T "chair" I)).
Defined.

End MoreOnFixture.

(** ** The classifiers as Python runs them: no exception, no hidden state *)

Section Running.

Lemma is_profane_py_str (s : string) (world : World) :
  is_profane_py (PyStr s) world
  = (Ok (str_in (lower s) (w_PROFANITY world)), world).
Proof. reflexivity. Qed.

Lemma is_abstract_noun_py_str (s : string) (world : World) :
  is_abstract_noun_py (PyStr s) world
  = (Ok (str_in (lower s) (w_ABSTRACT_WORDS world)
         || str_in (lower s) (w_ABSTRACT_KEYWORDS world)
         || ((7 <? String.length s)
             && suffix_loop (lower s) (w_ABSTRACT_SUFFIXES world))),
     world).
Proof.
  unfold is_abstract_noun_py, bind_py, lift, read, ret, py_lower, py_len.
  destruct (str_in (lower s) (w_ABSTRACT_WORDS world)); [reflexivity |].
  destruct (str_in (lower s) (w_ABSTRACT_KEYWORDS world)); [reflexivity |].
  destruct (7 <? String.length s); [| reflexivity].
  now destruct (suffix_loop (lower s) (w_ABSTRACT_SUFFIXES world)).
Qed.

Lemma should_filter_py_str (s : string) (world : World) :
  should_filter_py (PyStr s) world
  = (Ok (str_in (lower s) (w_PROFANITY world)
         || (str_in (lower s) (w_ABSTRACT_WORDS world)
             || str_in (lower s) (w_ABSTRACT_KEYWORDS world)
             || ((7 <? String.length s)
                 && suffix_loop (lower s) (w_ABSTRACT_SUFFIXES world)))),
     world).
Proof.
  unfold should_filter_py, bind_py.
  rewrite is_profane_py_str.
  destruct (str_in (lower s) (w_PROFANITY world)); [reflexivity |].
  rewrite is_abstract_noun_py_str. unfold ret.
  now destruct (_ || _).
Qed.

(** On a value that is not a string the first operation raises. *)
Lemma filter_py_not_str (word : pyobj) (world : World) :
  (forall s, word <> PyStr s) ->
  is_profane_py word world = (Raise AttributeError, world)
  /\ is_abstract_noun_py word world = (Raise AttributeError, world)
  /\ should_filter_py word world = (Raise AttributeError, world)
  /\ is_valid_word_py word world = (Raise AttributeError, world).
Proof.
  intros H. destruct word as [s | n |]; [now contradiction (H s) | |];
    repeat split.
Qed.

Lemma any_endswith_py_str (s : string) (suffixes : list string) :
  any_endswith_py (PyStr s) suffixes
  = Ok (existsb (fun suffix => endswith s suffix) suffixes).
Proof.
  induction suffixes as [| suffix rest IH]; cbn [any_endswith_py existsb];
    [reflexivity |].
  cbn [py_endswith bind]. now destruct (endswith s suffix).
Qed.

Lemma sense_returns_true_py_str (s : string) (synset : Synset) :
  sense_returns_true_py (PyStr s) synset = Ok (sense_returns_true s synset).
Proof.
  unfold sense_returns_true_py, sense_returns_true.
  destruct (negb _); [reflexivity |].
  destruct (intersects _ abstract_roots); [reflexivity |].
  destruct (existsb _ abstract_keywords); [reflexivity |].
  destruct (existsb _ technical_keywords); [reflexivity |].
  cbn [py_len bind].
  destruct (8 <? String.length s); cbn [andb bind]; [| reflexivity].
  rewrite any_endswith_py_str. cbn [bind].
  destruct (existsb _ formal_suffixes); [| reflexivity].
  now destruct (_ || _).
Qed.

Lemma synset_loop_py_str (s : string) (synsets : list Synset) :
  synset_loop_py (PyStr s) synsets = Ok (synset_loop s synsets).
Proof.
  induction synsets as [| x rest IH]; cbn [synset_loop_py synset_loop];
    [reflexivity |].
  rewrite sense_returns_true_py_str. cbn [bind].
  destruct (sense_returns_true s x); [reflexivity |].
  rewrite IH. reflexivity.
Qed.

(** What a call of [is_concrete_noun] gives, for any value: it is decided by
    the answer of the taxonomy, and the state is left as it was. *)
Lemma is_concrete_noun_py_run (word : pyobj) (world : World) :
  is_concrete_noun_py word world
  = (synsets <- w_wordnet world word ;;
     if negb (nonempty synsets) then Ok false
     else
       r <- synset_loop_py word synsets ;;
       Ok (match r with
           | Some _ => true
           | None => false
           end),
     world).
Proof.
  unfold is_concrete_noun_py, bind_py, lift, ret.
  destruct (w_wordnet world word) as [synsets | e]; cbn [bind];
    [| reflexivity].
  destruct (negb (nonempty synsets)); [reflexivity |].
  destruct (synset_loop_py word synsets) as [[n |] | e]; reflexivity.
Qed.

Lemma is_valid_word_py_run (word : pyobj) (world : World) :
  is_valid_word_py word world
  = (alpha <- py_isalpha word ;;
     if negb alpha then Ok false
     else
       c <- py_getitem0 word ;;
       if char_isupper c then Ok false
       else
         synsets <- w_wordnet world word ;;
         Ok (negb (nonempty synsets
                   && forallb
                        (fun synset => nonempty (instance_hypernyms synset))
                        synsets)),
     world).
Proof.
  unfold is_valid_word_py, bind_py, lift, ret.
  destruct (py_isalpha word) as [alpha | e]; cbn [bind]; [| reflexivity].
  destruct (negb alpha); [reflexivity |].
  destruct (py_getitem0 word) as [c | e]; cbn [bind]; [| reflexivity].
  destruct (char_isupper c); [reflexivity |].
  destruct (w_wordnet world word) as [synsets | e]; cbn [bind];
    [| reflexivity].
  destruct (nonempty synsets); [| reflexivity].
  cbn [andb]. now destruct (forallb _ synsets).
Qed.

(** The filter functions leave the state as it was, for any value. *)
Lemma filter_py_frame (word : pyobj) (world : World) :
  snd (is_profane_py word world) = world
  /\ snd (is_abstract_noun_py word world) = world
  /\ snd (should_filter_py word world) = world.
Proof.
  destruct word as [s | n |].
  - now rewrite is_profane_py_str, is_abstract_noun_py_str,
      should_filter_py_str.
  - repeat split.
  - repeat split.
Qed.

Lemma twice_run {A : Type} (f : pyobj -> Py A) (word : pyobj)
      (world : World) :
  snd (f word world) = world ->
  twice f word world
  = (v <- fst (f word world) ;; Ok (v, v), world).
Proof.
  intros H. unfold twice, bind_py, ret.
  destruct (f word world) as [[v | e] w'] eqn:E; cbn [fst snd bind] in *;
    subst w'; [| reflexivity].
  now rewrite E.
Qed.

End Running.

Section RunningClaims.

(** With the sets of the module the filter functions give, on a string, what
    [is_profane], [is_abstract_noun] and [should_filter] give. *)
Lemma filter_py_refines (world : World) (s : string) :
  module_globals world ->
  is_profane_py (PyStr s) world = (Ok (is_profane s), world)
  /\ is_abstract_noun_py (PyStr s) world = (Ok (is_abstract_noun s), world)
  /\ should_filter_py (PyStr s) world = (Ok (should_filter s), world).
Proof.
  intros (E1 & E2 & E3 & E4).
  rewrite is_profane_py_str, is_abstract_noun_py_str, should_filter_py_str.
  rewrite should_filter_unfold, is_abstract_noun_unfold. unfold is_profane.
  now rewrite E1, E2, E3, E4.
Qed.

(** With a taxonomy that answers [wn] on strings the two functions of
    [generate_nouns.py] give, on a string, what [is_valid_word] and
    [is_concrete_noun] give. *)
Lemma taxonomy_py_refines (world : World) (wn : string -> list Synset)
      (s : string) :
  taxonomy_of world wn ->
  is_valid_word_py (PyStr s) world = (is_valid_word wn s, world)
  /\ is_concrete_noun_py (PyStr s) world = (Ok (is_concrete_noun wn s), world).
Proof.
  intros T. split.
  - rewrite is_valid_word_py_run. f_equal.
    unfold is_valid_word. cbn [py_isalpha py_getitem0 bind].
    destruct (negb (isalpha s)); [reflexivity |].
    destruct (first_char s) as [c | e]; cbn [bind]; [| reflexivity].
    destruct (char_isupper c); [reflexivity |].
    rewrite T. cbn [bind].
    destruct (nonempty (wn s)); [| reflexivity].
    cbn [andb]. now destruct (forallb _ (wn s)).
  - rewrite is_concrete_noun_py_run, T. f_equal. cbn [bind].
    unfold is_concrete_noun.
    destruct (negb (nonempty (wn s))); [reflexivity |].
    now rewrite synset_loop_py_str.
Qed.

(** C8: on a lower-case alphabetic token no call of a classifier raises.
    The calls are the ones Python runs: [word] may be any value, [lower],
    [isalpha], [endswith], [len] and [word[0]] raise where Python raises, and
    the taxonomy is asked through the state.  On a value that is not a string
    the first operation raises; on a token each of the five calls returns a
    verdict, the one the functions on strings compute, and leaves the state
    alone.  A token the taxonomy has no sense for is no error: the validity
    filter accepts it and [is_concrete_noun] answers Abstract, so the word is
    excluded. *)
Theorem classifiers_total (world : World) (wn : string -> list Synset)
        (word : string) :
  lowercase_token word = true ->
  taxonomy_of world wn ->
  (exists b, is_profane_py (PyStr word) world = (Ok b, world))
  /\ (exists b, is_abstract_noun_py (PyStr word) world = (Ok b, world))
  /\ (exists b, should_filter_py (PyStr word) world = (Ok b, world))
  /\ (exists b, is_valid_word_py (PyStr word) world = (Ok b, world)
                /\ is_valid_word wn word = Ok b)
  /\ is_concrete_noun_py (PyStr word) world
     = (Ok (is_concrete_noun wn word), world)
  /\ (module_globals world ->
      is_profane_py (PyStr word) world = (Ok (is_profane word), world)
      /\ is_abstract_noun_py (PyStr word) world
         = (Ok (is_abstract_noun word), world)
      /\ should_filter_py (PyStr word) world = (Ok (should_filter word), world))
  /\ (wn word = [] ->
      is_valid_word_py (PyStr word) world = (Ok true, world)
      /\ is_concrete_noun_py (PyStr word) world = (Ok false, world))
  /\ (forall value, (forall s, value <> PyStr s) ->
        should_filter_py value world = (Raise AttributeError, world)
        /\ is_valid_word_py value world = (Raise AttributeError, world)).
Proof.
  intros Htok T.
  destruct (taxonomy_py_refines world wn word T) as (V & C).
  split; [rewrite is_profane_py_str; eexists; reflexivity |].
  split; [rewrite is_abstract_noun_py_str; eexists; reflexivity |].
  split; [rewrite should_filter_py_str; eexists; reflexivity |].
  assert (Vb : exists b, is_valid_word wn word = Ok b)
    by (rewrite is_valid_word_unfold; eexists; reflexivity).
  split.
  { destruct Vb as (b & Eb). exists b. now rewrite V, Eb. }
  split; [exact C |].
  split; [apply filter_py_refines |].
  split.
  - intros E. split.
    + rewrite V, is_valid_word_unfold, E.
      unfold lowercase_token in Htok. apply andb_true_iff in Htok.
      destruct Htok as (Ha & Hl). rewrite Ha.
      destruct word as [| c rest]; [discriminate Ha |].
      cbn [no_upper] in Hl. apply andb_true_iff in Hl.
      destruct Hl as (-> & _). reflexivity.
    + rewrite C. unfold is_concrete_noun. now rewrite E.
  - intros value Hv.
    destruct (filter_py_not_str value world Hv) as (_ & _ & S & W).
    now split.
Qed.

(** C9: the verdict of a call is a function of the word, the curated sets
    and the taxonomy alone.  Two states of the process that agree on the four
    curated sets and on the answer of the taxonomy for the word, and differ
    in anything else, give the same verdict or the same exception, for all
    five functions and any value; no call changes the state; so two calls one
    after the other give the same verdict twice. *)
Theorem classification_deterministic :
  (forall (w1 w2 : World) (word : pyobj),
      same_snapshot w1 w2 word ->
      fst (is_profane_py word w1) = fst (is_profane_py word w2)
      /\ fst (is_abstract_noun_py word w1) = fst (is_abstract_noun_py word w2)
      /\ fst (should_filter_py word w1) = fst (should_filter_py word w2)
      /\ fst (is_valid_word_py word w1) = fst (is_valid_word_py word w2)
      /\ fst (is_concrete_noun_py word w1)
         = fst (is_concrete_noun_py word w2))
  /\ (forall (world : World) (word : pyobj),
        snd (is_profane_py word world) = world
        /\ snd (is_abstract_noun_py word world) = world
        /\ snd (should_filter_py word world) = world
        /\ snd (is_valid_word_py word world) = world
        /\ snd (is_concrete_noun_py word world) = world)
  /\ (forall (world : World) (word : pyobj),
        twice should_filter_py word world
        = (v <- fst (should_filter_py word world) ;; Ok (v, v), world)
        /\ twice is_concrete_noun_py word world
           = (v <- fst (is_concrete_noun_py word world) ;; Ok (v, v), world)).
Proof.
  split; [| split].
  - intros w1 w2 word (E1 & E2 & E3 & E4 & E5).
    rewrite !is_valid_word_py_run, !is_concrete_noun_py_run. cbn [fst].
    rewrite E5.
    destruct word as [s | n |]; [| repeat split .. ].
    rewrite !is_profane_py_str, !is_abstract_noun_py_str,
      !should_filter_py_str. cbn [fst].
    rewrite E1, E2, E3, E4. repeat split.
  - intros world word.
    destruct (filter_py_frame word world) as (F1 & F2 & F3).
    rewrite is_valid_word_py_run, is_concrete_noun_py_run.
    repeat split; assumption.
  - intros world word. split; apply twice_run.
    + apply filter_py_frame.
    + now rewrite is_concrete_noun_py_run.
Qed.

End RunningClaims.

Section RunningOnFixture.

Import Fixture CorpusFixture.

Lemma world0_taxonomy : taxonomy_of world0 wn_synsets.
Proof. intros s. reflexivity. Defined.

Lemma classifiers_total_witness :
  lowercase_token "zebra" = true
  /\ taxonomy_of world0 wn_synsets
  /\ wn_synsets "zebra" = []
  /\ should_filter_py (PyStr "zebra") world0 = (Ok false, world0)
  /\ is_valid_word_py (PyStr "zebra") world0 = (Ok true, world0)
  /\ is_concrete_noun_py (PyStr "zebra") world0 = (Ok false, world0)
  /\ should_filter_py PyNone world0 = (Raise AttributeError, world0).
Proof.
  split; [reflexivity |]. split; [exact world0_taxonomy |].
  split; [reflexivity |].
  destruct (classifiers_total world0 wn_synsets "zebra" eq_refl
              world0_taxonomy)
    as (_ & _ & _ & _ & _ & M & E & N).
  assert (G : module_globals world0) by (repeat split).
  destruct (M G) as (_ & _ & S).
  split; [exact S |].
  destruct (E eq_refl) as (V & C).
  split; [exact V |]. split; [exact C |].
  apply (N PyNone). discriminate.
Defined.

Lemma classification_deterministic_witness :
  same_snapshot world0 world1 (PyStr "chair")
  /\ world0 <> world1
  /\ fst (should_filter_py (PyStr "chair") world0)
     = fst (should_filter_py (PyStr "chair") world1)
  /\ fst (is_concrete_noun_py (PyStr "chair") world0)
     = fst (is_concrete_noun_py (PyStr "chair") world1).
Proof.
  assert (S : same_snapshot world0 world1 (PyStr "chair"))
    by (repeat split).
  split; [exact S |]. split; [discriminate |].
  destruct (proj1 classification_deterministic world0 world1
              (PyStr "chair") S)
    as (_ & _ & F & _ & C).
  now split.
Defined.

End RunningOnFixture.
